(** * Live-location core of the bus tracker: sampling, publishing, subscribing

A shallow embedding of
- [src/services/locationService.ts] (class [LocationService]),
- the Firestore service (class [FirebaseService], live-location part),
- the driver dashboard component ([startTracking] / [stopTracking]),
followed by the properties the design document states about them and by
properties of the code over whole sessions and histories.

JavaScript numbers are IEEE-754 binary64 values, which is what Rocq's
primitive floats are, so [+ - * / <] and the literals below are the
operations the program performs, bit for bit. *)

From Stdlib Require Import ZArith Bool List Sorted PrimFloat FloatOps SpecFloat
  FloatAxioms Uint63.
From stdpp Require Import base option gmap strings list pretty.

Set Warnings "-inexact-float".

(* ===================================================================== *)
(** ** JavaScript numbers and the [Math] object *)
(* ===================================================================== *)

Module JS.

Definition number := float.

Bind Scope float_scope with number.

Definition isNaN (x : number) : bool := negb (x =? x)%float.

(** [ToBoolean] on a number: [0], [-0] and [NaN] are falsy. *)
Definition truthy (x : number) : bool := negb (x =? 0)%float && negb (isNaN x).

(** [ToBoolean] on [number | null]. *)
Definition truthy_opt (x : option number) : bool :=
  match x with
  | Some v => truthy v
  | None => false
  end.

(** [x || 0] for [x : number | null]. *)
Definition or_zero (x : option number) : number :=
  match x with
  | Some v => if truthy v then v else 0%float
  | None => 0%float
  end.

(** The magnitude [z] (with [0 <= z < 2^53]) as a number. *)
Definition of_magnitude (z : Z) : number := of_uint63 (Uint63.of_Z z).

(** [Math.round]: the integral number closest to [x], ties going towards
    +infinity; [NaN], the infinities and the zeros are returned unchanged,
    and a result that rounds to zero keeps the sign of [x].  The rounding
    is done on the exact value [(-1)^s * m * 2^e] of the argument. *)
Definition Math_round (x : number) : number :=
  match Prim2SF x with
  | S754_finite s m e =>
      if (0 <=? e)%Z then x
      else
        let d := (2 ^ (- e))%Z in
        let n := if s then Z.neg m else Z.pos m in
        let r := ((2 * n + d) / (2 * d))%Z in
        if (r =? 0)%Z then (if s then (-0)%float else 0%float)
        else if (r <? 0)%Z then (- of_magnitude (- r))%float
        else of_magnitude r
  | _ => x
  end.

(** [Math.PI], the binary64 value nearest to pi. *)
Definition Math_PI : number := 0x1.921fb54442d18p+1%float.

(** [Math.sin], [Math.cos] and [Math.atan2] are implementation-approximated
    in ECMAScript: the host chooses them.  They are an interface here. *)
Class MathHost := {
  Math_sin : number -> number;
  Math_cos : number -> number;
  Math_atan2 : number -> number -> number
}.

Definition Math_sqrt (x : number) : number := PrimFloat.sqrt x.

(** The place of a binary64 value in the order of [<]: its class and sign,
    then exponent and mantissa, the latter two negated for negative values.
    [NaN], which [<] does not order, is put first, as Firestore orders
    it. *)
Definition order_key (f : spec_float) : Z * Z * Z :=
  match f with
  | S754_nan => (-3, 0, 0)
  | S754_infinity true => (-2, 0, 0)
  | S754_finite true m e => (-1, - e, - Z.pos m)
  | S754_zero _ => (0, 0, 0)
  | S754_finite false m e => (1, e, Z.pos m)
  | S754_infinity false => (2, 0, 0)
  end%Z.

(** The lexicographic order of such keys. *)
Definition key_lt (a b : Z * Z * Z) : Prop :=
  let '(a1, a2, a3) := a in
  let '(b1, b2, b3) := b in
  (a1 < b1 \/ (a1 = b1 /\ (a2 < b2 \/ (a2 = b2 /\ a3 < b3))))%Z.

End JS.

(* ===================================================================== *)
(** ** A state monad for methods that mutate [this] *)
(* ===================================================================== *)

Definition State (S A : Type) : Type := S -> A * S.

Definition ret {S A} (a : A) : State S A := fun s => (a, s).

Definition bind {S A B} (c : State S A) (k : A -> State S B) : State S B :=
  fun s => let (a, s') := c s in k a s'.

Definition get {S} : State S S := fun s => (s, s).

Definition put {S} (s : S) : State S unit := fun _ => (tt, s).

Definition modify {S} (f : S -> S) : State S unit := fun s => (tt, f s).

Notation "'let*' x ':=' c 'in' k" := (bind c (fun x => k))
  (at level 10, x name, c at level 100, k at level 200).
Notation "c ';;' k" := (bind c (fun _ => k))
  (at level 100, k at level 200, right associativity).

(** How a call ends: it returns (a promise is fulfilled), or an exception
    leaves it (the promise is rejected). *)
Inductive completion (A : Type) : Type :=
| Returns (a : A)
| Throws (message : string).

Arguments Returns {A} a.
Arguments Throws {A} message.

(* ===================================================================== *)
(** ** [LocationService] (src/services/locationService.ts) *)
(* ===================================================================== *)

Module LocationService.
  Import JS.

(** The part of [GeolocationCoordinates] the service reads.
    [speed] is [number | null] in the DOM interface. *)
Record GeolocationCoordinates := mkCoords {
  latitude : number;
  longitude : number;
  accuracy : number;
  speed : option number
}.

(** [interface LocationData]. *)
Record LocationData := mkLocationData {
  data_latitude : number;
  data_longitude : number;
  data_speed : number;
  data_timestamp : number;
  data_accuracy : number
}.

(** The private fields of the class. *)
Record t := mkService {
  watchId : option Z;
  previousLocation : option GeolocationCoordinates;
  previousTimestamp : option number
}.

(** [new LocationService()]. *)
Definition create : t :=
  {| watchId := None; previousLocation := None; previousTimestamp := None |}.

Definition set_previous (c : GeolocationCoordinates) (ts : number) (s : t) : t :=
  {| watchId := watchId s;
     previousLocation := Some c;
     previousTimestamp := Some ts |}.

Section WithHost.
  Context `{MathHost}.
  Local Open Scope float_scope.

(** [calculateDistance]: the haversine formula, lines 114-127. *)
Definition calculateDistance (lat1 lon1 lat2 lon2 : number) : number :=
  let R := 6371e3 in
  let phi1 := lat1 * Math_PI / 180 in
  let phi2 := lat2 * Math_PI / 180 in
  let dphi := (lat2 - lat1) * Math_PI / 180 in
  let dlambda := (lon2 - lon1) * Math_PI / 180 in
  let a := Math_sin (dphi / 2) * Math_sin (dphi / 2) +
           Math_cos phi1 * Math_cos phi2 *
           Math_sin (dlambda / 2) * Math_sin (dlambda / 2) in
  let c := 2 * Math_atan2 (Math_sqrt a) (Math_sqrt (1 - a)) in
  R * c.

(** [calculateSpeed], lines 90-111.  [Date.now()] is read once when the
    state is seeded (line 93) and twice otherwise (lines 104 and 108):
    [now0] is the first reading of the call and [now1] the second. *)
Definition calculateSpeed (now0 now1 : number) (coords : GeolocationCoordinates)
  : State t number :=
  let* this := get in
  match previousLocation this, previousTimestamp this with
  | Some prev, Some prevTs =>
      if truthy prevTs then
        let distance :=
          calculateDistance (latitude prev) (longitude prev)
                            (latitude coords) (longitude coords) in
        let timeDiff := (now0 - prevTs) / 1000 in
        let speed := if (0 <? timeDiff) then (distance / timeDiff) * 3.6 else 0 in
        modify (set_previous coords now1) ;;
        ret (Math_round (speed * 10) / 10)
      else
        modify (set_previous coords now0) ;;
        ret (or_zero (speed coords))
  | _, _ =>
      modify (set_previous coords now0) ;;
      ret (or_zero (speed coords))
  end.

(** The success callback of [getCurrentPosition], lines 23-32.  The
    object literal evaluates [calculateSpeed] before the [Date.now()] of
    its [timestamp] field, whose reading is [now2]. *)
Definition getCurrentPosition_onSuccess (now0 now1 now2 : number)
    (coords : GeolocationCoordinates) : State t LocationData :=
  let* v := calculateSpeed now0 now1 coords in
  ret {| data_latitude := latitude coords;
         data_longitude := longitude coords;
         data_speed := v;
         data_timestamp := now2;
         data_accuracy := accuracy coords |}.

(** The success callback registered by [startWatching], lines 54-66;
    the sample it builds is what [callback] receives. *)
Definition startWatching_onPosition (now0 now1 now2 : number)
    (coords : GeolocationCoordinates) : State t LocationData :=
  let* v := calculateSpeed now0 now1 coords in
  ret {| data_latitude := latitude coords;
         data_longitude := longitude coords;
         data_speed := v;
         data_timestamp := now2;
         data_accuracy := accuracy coords |}.

End WithHost.

(** [navigator.geolocation] as far as the service uses it: the identifiers of
    the watches that are registered, and the identifier the next
    [watchPosition] returns. *)
Record Geolocation := mkGeolocation {
  watches : gset Z;
  nextWatchId : Z
}.

Definition watchPosition (g : Geolocation) : Z * Geolocation :=
  (nextWatchId g,
   {| watches := {[nextWatchId g]} ∪ watches g;
      nextWatchId := (nextWatchId g + 1)%Z |}).

Definition clearWatch (id : Z) (g : Geolocation) : Geolocation :=
  {| watches := watches g ∖ {[id]}; nextWatchId := nextWatchId g |}.

(** The singleton service together with the browser it runs in;
    [geolocation] is [None] where [navigator.geolocation] is undefined. *)
Record Runtime := mkRuntime {
  service : t;
  geolocation : option Geolocation
}.

(** [startWatching], lines 46-77, up to the registration of the watch: the
    promise is rejected where there is no geolocation object. *)
Definition startWatching (rt : Runtime) : completion Runtime :=
  match geolocation rt with
  | None => Throws "Geolocation is not supported"
  | Some g =>
      let (id, g') := watchPosition g in
      Returns {| service := {| watchId := Some id;
                               previousLocation := previousLocation (service rt);
                               previousTimestamp := previousTimestamp (service rt) |};
                 geolocation := Some g' |}
  end.

(** [stopWatching], lines 80-87.  Reading [clearWatch] off an undefined
    [navigator.geolocation] is a [TypeError]. *)
Definition stopWatching (rt : Runtime) : completion Runtime :=
  match watchId (service rt) with
  | Some id =>
      match geolocation rt with
      | Some g =>
          Returns {| service := {| watchId := None;
                                   previousLocation := None;
                                   previousTimestamp := None |};
                     geolocation := Some (clearWatch id g) |}
      | None => Throws "TypeError"
      end
  | None => Returns rt
  end.

Section Delivery.
Context `{MathHost}.

(** The browser delivers a position to watch [id]: the callback of
    [startWatching] runs only while that watch is registered, and the sample
    it hands to its caller is the emitted one. *)
Definition deliver (id : Z) (now0 now1 now2 : number)
    (coords : GeolocationCoordinates) (rt : Runtime)
  : option LocationData * Runtime :=
  match geolocation rt with
  | Some g =>
      if decide (id ∈ watches g) then
        let (sample, svc) :=
          startWatching_onPosition now0 now1 now2 coords (service rt) in
        (Some sample, {| service := svc; geolocation := Some g |})
      else (None, rt)
  | None => (None, rt)
  end.

End Delivery.

(** A watch identifier is only ever stored by [startWatching], which found a
    geolocation object: a runtime is consistent when it has the object
    whenever the service holds an identifier. *)
Definition consistent (rt : Runtime) : bool :=
  match watchId (service rt), geolocation rt with
  | Some _, None => false
  | _, _ => true
  end.

(** The runtime of a page that has just loaded the module. *)
Definition boot (g : option Geolocation) : Runtime :=
  {| service := create; geolocation := g |}.

(** *** The estimator as the design document words it *)

(** [EstimatorState] of the data model. *)
Record EstimatorState := mkEstimator {
  previousCoord : option GeolocationCoordinates;
  previousTimestampMs : option number
}.

Definition estimator (s : t) : EstimatorState :=
  {| previousCoord := previousLocation s;
     previousTimestampMs := previousTimestamp s |}.

Section Reference.
Context `{MathHost}.
Local Open Scope float_scope.

Definition distanceMeters (a b : GeolocationCoordinates) : number :=
  calculateDistance (latitude a) (longitude a) (latitude b) (longitude b).

Definition roundOneDecimal (x : number) : number := Math_round (x * 10) / 10.

(** [distance / elapsedSeconds * 3.6], or 0 where no time has elapsed. *)
Definition derivedSpeed (prev : GeolocationCoordinates) (prevTs : number)
    (coord : GeolocationCoordinates) (nowMs : number) : number :=
  let elapsedSeconds := (nowMs - prevTs) / 1000 in
  if 0 <? elapsedSeconds
  then distanceMeters prev coord / elapsedSeconds * 3.6
  else 0.

(** [deriveSpeedKmh] as the document states it: the provider's speed (or 0)
    when there is no previous coordinate, the derived speed otherwise, the
    returned value rounded to one decimal place, the state advanced whatever
    the branch.  The document gives no elapsed time for a state that holds a
    coordinate without a timestamp; such a state is read as having no
    previous fix. *)
Definition deriveSpeedKmh_spec (state : EstimatorState)
    (coord : GeolocationCoordinates) (nowMs : number)
  : number * EstimatorState :=
  let value :=
    match previousCoord state, previousTimestampMs state with
    | Some prev, Some prevTs => derivedSpeed prev prevTs coord nowMs
    | _, _ => or_zero (speed coord)
    end in
  (roundOneDecimal value,
   {| previousCoord := Some coord; previousTimestampMs := Some nowMs |}).

(** What the method computes, as a function of the estimator state: the
    previous fix is usable when both fields are set and the timestamp is a
    truthy number; the provider's speed is handed on as it is, and only the
    derived speed is rounded. *)
Definition deriveSpeedKmh (state : EstimatorState)
    (coord : GeolocationCoordinates) (nowMs : number)
  : number * EstimatorState :=
  let value :=
    match previousCoord state, previousTimestampMs state with
    | Some prev, Some prevTs =>
        if truthy prevTs
        then roundOneDecimal (derivedSpeed prev prevTs coord nowMs)
        else or_zero (speed coord)
    | _, _ => or_zero (speed coord)
    end in
  (value, {| previousCoord := Some coord; previousTimestampMs := Some nowMs |}).

(** The same with the two clock readings of a call told apart.  The elapsed
    time is measured at the first reading, [nowMs] (line 104); the state
    records the later reading, [laterMs] (line 108), where the speed was
    derived, and the first reading where the state was seeded (line 93). *)
Definition deriveSpeedKmh_readings (state : EstimatorState)
    (coord : GeolocationCoordinates) (nowMs laterMs : number)
  : number * EstimatorState :=
  match previousCoord state, previousTimestampMs state with
  | Some prev, Some prevTs =>
      if truthy prevTs
      then (roundOneDecimal (derivedSpeed prev prevTs coord nowMs),
            {| previousCoord := Some coord; previousTimestampMs := Some laterMs |})
      else (or_zero (speed coord),
            {| previousCoord := Some coord; previousTimestampMs := Some nowMs |})
  | _, _ =>
      (or_zero (speed coord),
       {| previousCoord := Some coord; previousTimestampMs := Some nowMs |})
  end.

End Reference.

(** A small host on which the definitions can be run: truncated series
    around 0, adequate for the short hops between two fixes of a bus.  Any
    other host can take its place; nothing below is proved of this one
    only. *)
Definition series_sin (x : number) : number :=
  (x - x * x * x / 6 + x * x * x * x * x / 120)%float.

Definition series_cos (x : number) : number :=
  (1 - x * x / 2 + x * x * x * x / 24)%float.

Definition series_atan2 (y x : number) : number :=
  let r := (y / x)%float in
  (r - r * r * r / 3 + r * r * r * r * r / 5)%float.

Definition series_host : MathHost :=
  {| Math_sin := series_sin; Math_cos := series_cos; Math_atan2 := series_atan2 |}.

(** *** The service in use *)

(** What the browser answers a position request with. *)
Inductive provider_result : Type :=
| Fix (coords : GeolocationCoordinates)
| Failure (message : string).

(** The watch the service holds is one the browser has registered. *)
Definition held_watch_registered (rt : Runtime) : Prop :=
  forall id, watchId (service rt) = Some id ->
             exists g, geolocation rt = Some g /\ id ∈ watches g.

(** Whether the service holds a previous fix that [calculateSpeed] uses: the
    test of line 91, negated. *)
Definition has_previous_fix (s : t) : bool :=
  match previousLocation s with
  | Some _ => truthy_opt (previousTimestamp s)
  | None => false
  end.

(** The object literal both success callbacks build (lines 24-30 and 55-61),
    for a fix, the speed computed for it and the reading of the clock. *)
Definition sample_of (coords : GeolocationCoordinates) (v now : number)
  : LocationData :=
  {| data_latitude := latitude coords;
     data_longitude := longitude coords;
     data_speed := v;
     data_timestamp := now;
     data_accuracy := accuracy coords |}.

Section Calls.
Context `{MathHost}.

(** [getCurrentPosition], lines 15-43: the promise is rejected where there is
    no geolocation object and where the browser reports an error (neither
    touches the service); a fix goes through the success callback. *)
Definition getCurrentPosition (answer : provider_result)
    (now0 now1 now2 : number) (rt : Runtime)
  : completion LocationData * Runtime :=
  match geolocation rt with
  | None => (Throws "Geolocation is not supported", rt)
  | Some g =>
      match answer with
      | Fix coords =>
          let (sample, svc) :=
            getCurrentPosition_onSuccess now0 now1 now2 coords (service rt) in
          (Returns sample, {| service := svc; geolocation := Some g |})
      | Failure message => (Throws message, rt)
      end
  end.

(** What a page does with the service, one call or one browser event at a
    time. *)
Inductive call : Type :=
| CallGetCurrentPosition (answer : provider_result) (now0 now1 now2 : number)
| CallStartWatching
| CallStopWatching
| WatchUpdate (id : Z) (now0 now1 now2 : number) (coords : GeolocationCoordinates).

(** The runtime after a call; a call that throws leaves it as it was. *)
Definition after (rt : Runtime) (c : call) : Runtime :=
  match c with
  | CallGetCurrentPosition answer now0 now1 now2 =>
      (getCurrentPosition answer now0 now1 now2 rt).2
  | CallStartWatching =>
      match startWatching rt with
      | Returns rt' => rt'
      | Throws _ => rt
      end
  | CallStopWatching =>
      match stopWatching rt with
      | Returns rt' => rt'
      | Throws _ => rt
      end
  | WatchUpdate id now0 now1 now2 coords =>
      (deliver id now0 now1 now2 coords rt).2
  end.

Definition session (calls : list call) (rt : Runtime) : Runtime :=
  foldl after rt calls.

End Calls.

End LocationService.

(* ===================================================================== *)
(** ** The Firestore operations the service calls *)
(* ===================================================================== *)

Module Firestore.
Import JS.

(** Field values: the three kinds the live-location documents hold. *)
Inductive value : Type :=
| VString (s : string)
| VNumber (x : number)
| VBoolean (b : bool).

(** A document is a map from field names to values, a collection a map from
    document identifiers to documents. *)
Abbreviation document := (gmap string value).
Abbreviation collection := (gmap string (gmap string value)).

(** [setDoc(ref, data, { merge: true })]: the fields of [data] are written
    over those of the document, which is created when it does not exist;
    the fields [data] does not name are kept. *)
Definition setDoc_merge (id : string) (data : document) (c : collection)
  : collection :=
  <[id := data ∪ default ∅ (c !! id)]> c.

(** [updateDoc(ref, data)]: as above on an existing document; the promise is
    rejected with [not-found], and nothing is written, when there is none. *)
Definition updateDoc (id : string) (data : document) (c : collection)
  : completion collection :=
  match c !! id with
  | Some d => Returns (<[id := data ∪ d]> c)
  | None => Throws "not-found"
  end.

(** Equality as [where(field, '==', v)] tests it; unlike [===], a stored
    [NaN] matches [NaN]. *)
Definition value_eqb (a b : value) : bool :=
  match a, b with
  | VString x, VString y => bool_decide (x = y)
  | VNumber x, VNumber y => (x =? y)%float || (isNaN x && isNaN y)
  | VBoolean x, VBoolean y => Bool.eqb x y
  | _, _ => false
  end.

Definition where_eq (field : string) (v : value) (d : document) : bool :=
  match d !! field with
  | Some w => value_eqb w v
  | None => false
  end.

(** The order of values in a query: booleans, then numbers ([NaN] first),
    then strings. *)
Definition value_ltb (a b : value) : bool :=
  match a, b with
  | VBoolean x, VBoolean y => negb x && y
  | VBoolean _, _ => true
  | VNumber x, VNumber y => if isNaN x then negb (isNaN y) else (x <? y)%float
  | VNumber _, VString _ => true
  | VString x, VString y => String.ltb x y
  | _, _ => false
  end.

(** [orderBy(field, 'desc')]: whether [x] comes before [y]; equal values are
    ordered by document identifier, in the same direction. *)
Definition before_desc (field : string) (x y : string * document) : bool :=
  match x.2 !! field, y.2 !! field with
  | Some vx, Some vy =>
      value_ltb vy vx || (negb (value_ltb vx vy) && String.ltb y.1 x.1)
  | _, _ => false
  end.

(** [orderBy(field, 'desc'), limit(1)] over the documents that passed the
    filters: documents without the field are not in the result. *)
Definition first_desc (field : string) (docs : list (string * document))
  : option (string * document) :=
  foldr (fun x best =>
           match best with
           | Some y => if before_desc field x y then Some x else Some y
           | None => Some x
           end)
        None
        (List.filter (fun x => bool_decide (is_Some (x.2 !! field))) docs).

(** [addDoc(collection, data)]: the document is written under an identifier
    the client generates; [id] is that identifier. *)
Definition addDoc (id : string) (data : document) (c : collection)
  : string * collection :=
  (id, <[id := data]> c).

(** [getDoc(ref)]: the snapshot's data, [None] when [exists()] is false. *)
Definition getDoc (id : string) (c : collection) : option document := c !! id.

(** [deleteDoc(ref)]: succeeds whether or not the document exists. *)
Definition deleteDoc (id : string) (c : collection) : collection := delete id c.

(** [orderBy(field)], ascending: whether [x] comes before [y]; equal values
    are ordered by document identifier. *)
Definition before_asc (field : string) (x y : string * document) : bool :=
  match x.2 !! field, y.2 !! field with
  | Some vx, Some vy =>
      value_ltb vx vy || (negb (value_ltb vy vx) && String.ltb x.1 y.1)
  | _, _ => false
  end.

(** Insertion of a document into an ordered result. *)
Fixpoint insert_by (before : string * document -> string * document -> bool)
    (x : string * document) (l : list (string * document))
  : list (string * document) :=
  match l with
  | [] => [x]
  | y :: l' => if before x y then x :: y :: l' else y :: insert_by before x l'
  end.

(** The documents that have [field], in the order [before] gives. *)
Definition ordered_by (before : string * document -> string * document -> bool)
    (field : string) (docs : list (string * document))
  : list (string * document) :=
  foldr (insert_by before) []
        (List.filter (fun x => bool_decide (is_Some (x.2 !! field))) docs).

(** A query without [orderBy] lists documents by identifier: its first
    document is the one with the least identifier. *)
Definition first_by_id (docs : list (string * document))
  : option (string * document) :=
  foldr (fun x best =>
           match best with
           | Some y => if String.ltb x.1 y.1 then Some x else Some y
           | None => Some x
           end)
        None docs.

End Firestore.

(* ===================================================================== *)
(** ** [FirebaseService]: the live-location operations *)
(* ===================================================================== *)

Module FirebaseService.
Import JS Firestore.

(** [interface LiveLocation]. *)
Record LiveLocation := mkLiveLocation {
  driverId : string;
  busNumber : string;
  latitude : number;
  longitude : number;
  speed : number;
  timestamp : number;
  accuracy : number;
  isActive : bool
}.

(** The object handed to Firestore: one field per property. *)
Definition toData (l : LiveLocation) : document :=
  <["driverId" := VString (driverId l)]>
  (<["busNumber" := VString (busNumber l)]>
  (<["latitude" := VNumber (latitude l)]>
  (<["longitude" := VNumber (longitude l)]>
  (<["speed" := VNumber (speed l)]>
  (<["timestamp" := VNumber (timestamp l)]>
  (<["accuracy" := VNumber (accuracy l)]>
  (<["isActive" := VBoolean (isActive l)]> ∅))))))).

(** [updateLiveLocation], lines 151-154, on the [liveLocations] collection. *)
Definition updateLiveLocation (locationData : LiveLocation) (db : collection)
  : collection :=
  setDoc_merge (driverId locationData) (toData locationData) db.

(** The update [stopLiveLocation] sends; [now] is the reading of
    [Date.now()]. *)
Definition stopData (now : number) : document :=
  <["isActive" := VBoolean false]> (<["stoppedAt" := VNumber now]> ∅).

(** [stopLiveLocation], lines 156-162. *)
Definition stopLiveLocation (driverId : string) (now : number) (db : collection)
  : completion collection :=
  updateDoc driverId (stopData now) db.

(** The documents the query of [subscribeToLiveLocation] selects, lines
    166-172, before ordering. *)
Definition liveLocationQuery (busNumber : string) (db : collection)
  : list (string * document) :=
  List.filter
    (fun x => where_eq "busNumber" (VString busNumber) x.2
              && where_eq "isActive" (VBoolean true) x.2)
    (map_to_list db).

(** [subscribeToLiveLocation], lines 165-182: what the listener passes to
    [callback] for a snapshot of the collection; [None] is [null]. *)
Definition subscribeToLiveLocation (busNumber : string) (db : collection)
  : option document :=
  match first_desc "timestamp" (liveLocationQuery busNumber db) with
  | Some doc => Some doc.2
  | None => None
  end.

(** The documents of [subscribeToAllLiveLocations], lines 206-217, in the
    order the collection lists them. *)
Definition allLiveLocationsQuery (db : collection) : list (string * document) :=
  List.filter
    (fun x => where_eq "isActive" (VBoolean true) x.2
              && bool_decide (is_Some (x.2 !! "timestamp")))
    (map_to_list db).

(** *** Histories of the shared store *)

Inductive operation : Type :=
| Publish (locationData : LiveLocation)
| Deactivate (driverId : string) (now : number).

(** One operation against the store; a rejected one leaves it as it was. *)
Definition perform (db : collection) (op : operation) : collection :=
  match op with
  | Publish l => updateLiveLocation l db
  | Deactivate id now =>
      match stopLiveLocation id now db with
      | Returns db' => db'
      | Throws _ => db
      end
  end.

Definition history (ops : list operation) (db : collection) : collection :=
  foldl perform db ops.

(** A stored record is active when its [isActive] field is [true]. *)
Definition active (d : document) : bool := where_eq "isActive" (VBoolean true) d.

(** The active records stored under the key [id]. *)
Definition activeRecords (id : string) (db : collection)
  : list (string * document) :=
  List.filter (fun x => bool_decide (x.1 = id) && active x.2) (map_to_list db).

(** Every stored record carries the field the queries order by. *)
Definition timestamped (db : collection) : Prop :=
  forall id d, db !! id = Some d -> is_Some (d !! "timestamp").

(** [d] is a record of bus [bus] that is active. *)
Definition activeFor (bus : string) (d : document) : Prop :=
  d !! "busNumber" = Some (VString bus) /\ d !! "isActive" = Some (VBoolean true).

(** *** The fleet view *)

(** [subscribeToAllLiveLocations], lines 206-217: the active records, the
    latest first, each with the key it is stored under. *)
Definition fleetQuery (db : collection) : list (string * document) :=
  ordered_by (before_desc "timestamp") "timestamp"
    (List.filter (fun x => where_eq "isActive" (VBoolean true) x.2)
                 (map_to_list db)).

(** What the listener passes to [callback]: the data of those records. *)
Definition subscribeToAllLiveLocations (db : collection) : list document :=
  map snd (fleetQuery db).

(** *** Drivers *)

(** The object [{ id: snapshot.id, ...snapshot.data() }]: the spread comes
    second, so a stored field named [id] takes the place of the key. *)
Definition withId (id : string) (data : document) : document :=
  data ∪ {["id" := VString id]}.

(** [createDriver], lines 81-84, on the [drivers] collection; [newId] is the
    identifier [addDoc] generates.  The properties of the driver are the
    fields of the document. *)
Definition createDriver (newId : string) (driver : document) (db : collection)
  : string * collection :=
  addDoc newId driver db.

(** The update [updateDriverStatus] sends; [now] is the reading of
    [Date.now()]. *)
Definition statusData (isOnline : bool) (now : number) : document :=
  <["isOnline" := VBoolean isOnline]> (<["lastUpdated" := VNumber now]> ∅).

(** [updateDriverStatus], lines 86-92. *)
Definition updateDriverStatus (driverId : string) (isOnline : bool)
    (now : number) (db : collection) : completion collection :=
  updateDoc driverId (statusData isOnline now) db.

(** [getDriver], lines 94-102; [None] is [null]. *)
Definition getDriver (driverId : string) (db : collection) : option document :=
  match getDoc driverId db with
  | Some data => Some (withId driverId data)
  | None => None
  end.

(** [getDriverByEmail], lines 104-113. *)
Definition getDriverByEmail (email : string) (db : collection)
  : option document :=
  match first_by_id
          (List.filter (fun x => where_eq "email" (VString email) x.2)
                       (map_to_list db)) with
  | Some doc => Some (withId doc.1 doc.2)
  | None => None
  end.

(** [getAllDrivers], lines 191-195: the drivers by name. *)
Definition getAllDrivers (db : collection) : list document :=
  map (fun doc => withId doc.1 doc.2)
      (ordered_by (before_asc "name") "name" (map_to_list db)).

(** [deleteDriver], lines 201-203. *)
Definition deleteDriver (driverId : string) (db : collection) : collection :=
  deleteDoc driverId db.

(** The name of [d'] does not come before the name of [d]. *)
Definition names_ascend (d d' : document) : Prop :=
  forall n n',
    d !! "name" = Some (VString n) ->
    d' !! "name" = Some (VString n') ->
    String.ltb n' n = false.

(** What an administrator does to the [drivers] collection. *)
Inductive driver_operation : Type :=
| CreateDriver (newId : string) (driver : document)
| UpdateDriverStatus (driverId : string) (isOnline : bool) (now : number)
| DeleteDriver (driverId : string).

Definition perform_driver (db : collection) (op : driver_operation) : collection :=
  match op with
  | CreateDriver newId driver => (createDriver newId driver db).2
  | UpdateDriverStatus id isOnline now =>
      match updateDriverStatus id isOnline now db with
      | Returns db' => db'
      | Throws _ => db
      end
  | DeleteDriver id => deleteDriver id db
  end.

(** The key an operation on the shared store addresses. *)
Definition operation_key (op : operation) : string :=
  match op with
  | Publish l => driverId l
  | Deactivate id _ => id
  end.

(** [y] is not a later record than [x], by their timestamps in the order of
    the query. *)
Definition not_later (x y : string * document) : Prop :=
  forall tx ty,
    x.2 !! "timestamp" = Some (VNumber tx) ->
    y.2 !! "timestamp" = Some (VNumber ty) ->
    value_ltb (VNumber tx) (VNumber ty) = false.

(** A stored record as [updateLiveLocation] shapes it: its [driverId] is its
    key, and bus, timestamp and flag have the kinds of [LiveLocation]. *)
Definition shaped (id : string) (d : document) : Prop :=
  d !! "driverId" = Some (VString id)
  /\ (exists bus, d !! "busNumber" = Some (VString bus))
  /\ (exists t, d !! "timestamp" = Some (VNumber t))
  /\ (exists b, d !! "isActive" = Some (VBoolean b)).

(** The last operation of a history that addresses the key [id]. *)
Definition last_under (id : string) (ops : list operation) : option operation :=
  last (List.filter (fun op => bool_decide (operation_key op = id)) ops).

(** The active records that name [id] in their [driverId] field, under
    whatever key they are stored. *)
Definition activeRecordsOf (id : string) (db : collection)
  : list (string * document) :=
  List.filter (fun x => where_eq "driverId" (VString id) x.2 && active x.2)
              (map_to_list db).

(** Both records carry a number as timestamp, and that of [y] does not come
    after that of [x] in the order of the query. *)
Definition latest_first (x y : string * document) : Prop :=
  exists tx ty,
    x.2 !! "timestamp" = Some (VNumber tx)
    /\ y.2 !! "timestamp" = Some (VNumber ty)
    /\ value_ltb (VNumber tx) (VNumber ty) = false.

(** Both drivers carry a string as name, and that of [d'] does not come
    before that of [d]. *)
Definition by_name (d d' : document) : Prop :=
  exists n n',
    d !! "name" = Some (VString n)
    /\ d' !! "name" = Some (VString n')
    /\ String.ltb n' n = false.

End FirebaseService.

(* ===================================================================== *)
(** ** The driver dashboard: [startTracking] and [stopTracking] *)
(* ===================================================================== *)

Module DriverDashboard.
Import JS.

Inductive permission : Type := Granted | Denied | Prompt.

(** The part of a [GeolocationPosition] the component reads. *)
Record position := mkPosition {
  coords_latitude : number;
  coords_longitude : number;
  coords_speed : option number;
  coords_heading : option number
}.

(** The object kept in [currentLocation]. *)
Record location := mkLocation {
  lat : number;
  lng : number;
  timestamp : number;
  speed : number;
  heading : number
}.

(** Lines 70-76 and 83-89: the provider's speed goes from m/s to km/h. *)
Definition toLocation (p : position) (now : number) : location :=
  {| lat := coords_latitude p;
     lng := coords_longitude p;
     timestamp := now;
     speed := match coords_speed p with
              | Some v => if truthy v then (v * 3.6)%float else 0%float
              | None => 0%float
              end;
     heading := or_zero (coords_heading p) |}.

(** The [useState] cells of the component, lines 13-19. *)
Record component := mkComponent {
  isTracking : bool;
  currentLocation : option location;
  locationError : string;
  watchId : option Z;
  tripStartTime : option number;
  passengerCount : nat;
  locationPermission : permission
}.

(** Where an invocation of [startTracking] is suspended. *)
Inductive task : Type :=
| AwaitPermission     (* line 65: await requestLocationPermission() *)
| AwaitInitialFix     (* line 69: await getCurrentLocation() *)
| AwaitStatusUpdate.  (* line 112: await updateDriverStatus(...) *)

(** The component in its page: its state, the watches registered with the
    browser, the invocations of [startTracking] that are suspended, the
    locations handed to [startLocationTracking] with the watch that produced
    each (latest first), and the number of calls of [stopLocationTracking]. *)
Record page := mkPage {
  ui : component;
  watches : gset Z;
  nextWatchId : Z;
  pending : list task;
  published : list (Z * location);
  stopRequests : nat
}.

Definition with_ui (f : component -> component) (w : page) : page :=
  {| ui := f (ui w); watches := watches w; nextWatchId := nextWatchId w;
     pending := pending w; published := published w;
     stopRequests := stopRequests w |}.

Definition with_pending (f : list task -> list task) (w : page) : page :=
  {| ui := ui w; watches := watches w; nextWatchId := nextWatchId w;
     pending := f (pending w); published := published w;
     stopRequests := stopRequests w |}.

Definition setLocationError (m : string) (c : component) : component :=
  {| isTracking := isTracking c; currentLocation := currentLocation c;
     locationError := m; watchId := watchId c;
     tripStartTime := tripStartTime c; passengerCount := passengerCount c;
     locationPermission := locationPermission c |}.

Definition setLocationPermission (p : permission) (c : component) : component :=
  {| isTracking := isTracking c; currentLocation := currentLocation c;
     locationError := locationError c; watchId := watchId c;
     tripStartTime := tripStartTime c; passengerCount := passengerCount c;
     locationPermission := p |}.

Definition setCurrentLocation (l : location) (c : component) : component :=
  {| isTracking := isTracking c; currentLocation := Some l;
     locationError := locationError c; watchId := watchId c;
     tripStartTime := tripStartTime c; passengerCount := passengerCount c;
     locationPermission := locationPermission c |}.

(** Lines 107-109: [setWatchId(id); setIsTracking(true);
    setTripStartTime(new Date())]. *)
Definition setTracking (id : Z) (now : number) (c : component) : component :=
  {| isTracking := true; currentLocation := currentLocation c;
     locationError := locationError c; watchId := Some id;
     tripStartTime := Some now; passengerCount := passengerCount c;
     locationPermission := locationPermission c |}.

(** Lines 129-135 on the state cells. *)
Definition setStopped (c : component) : component :=
  {| isTracking := false; currentLocation := currentLocation c;
     locationError := locationError c; watchId := None;
     tripStartTime := None; passengerCount := passengerCount c;
     locationPermission := locationPermission c |}.

(** Modelled from the spec: [watchPosition] of the location module is
    imported by the component but is not among the sources.  As
    [startWatch] of the design document it begins continuous sampling and
    returns the handle that cancels it; the component cancels with
    [navigator.geolocation.clearWatch], so the handle is the browser's. *)
Definition watchPosition (w : page) : Z * page :=
  (nextWatchId w,
   {| ui := ui w; watches := {[nextWatchId w]} ∪ watches w;
      nextWatchId := (nextWatchId w + 1)%Z; pending := pending w;
      published := published w; stopRequests := stopRequests w |}).

(** [navigator.geolocation.clearWatch]. *)
Definition clearWatch (id : Z) (w : page) : page :=
  {| ui := ui w; watches := watches w ∖ {[id]};
     nextWatchId := nextWatchId w; pending := pending w;
     published := published w; stopRequests := stopRequests w |}.

(** Modelled from the spec: [getCurrentLocation] and [updateDriverStatus]
    are imported by the component but are not among the sources.  They are
    taken as the promises the component awaits, a one-shot fix that fails
    with the cause, and a status write that may be refused:
    [getCurrentLocation] settles with a position (read at [now]) or an
    error, [updateDriverStatus] with nothing or an error. *)
Inductive settlement : Type :=
| Fulfilled (p : position) (now : number)
| Rejected (message : string).

(** [startTracking], lines 59-66, up to its first [await]: nothing in it
    looks at [isTracking] or [watchId]. *)
Definition startTracking (w : page) : page :=
  let w := with_ui (setLocationError "") w in
  let first := match locationPermission (ui w) with
               | Granted => AwaitInitialFix
               | _ => AwaitPermission
               end in
  with_pending (fun ts => ts ++ [first]) w.

(** The rest of [startTracking] from the [await] it is suspended at, up to
    the next one ([None] when the invocation is over).  A failure of
    [requestLocationPermission] is caught inside it (lines 53-56), one of
    the later promises by the handler of lines 121-124. *)
Definition resume (t : task) (r : settlement) (w : page) : page * option task :=
  match t, r with
  | AwaitPermission, Fulfilled p now =>
      (with_ui (fun c => setLocationError ""
                           (setLocationPermission Granted
                              (setCurrentLocation (toLocation p now) c))) w,
       Some AwaitInitialFix)
  | AwaitPermission, Rejected m =>
      (with_ui (fun c => setLocationPermission Denied (setLocationError m c)) w,
       Some AwaitInitialFix)
  | AwaitInitialFix, Fulfilled p now =>
      let w := with_ui (setCurrentLocation (toLocation p now)) w in
      let (id, w) := watchPosition w in
      (with_ui (setTracking id now) w, Some AwaitStatusUpdate)
  | AwaitInitialFix, Rejected m => (with_ui (setLocationError m) w, None)
  | AwaitStatusUpdate, Fulfilled _ _ => (w, None)
  | AwaitStatusUpdate, Rejected m => (with_ui (setLocationError m) w, None)
  end.

(** [stopTracking], lines 127-138, up to its first [await]. *)
Definition stopTracking (w : page) : page :=
  let w := match watchId (ui w) with
           | Some id => clearWatch id w
           | None => w
           end in
  let w := with_ui setStopped w in
  {| ui := ui w; watches := watches w; nextWatchId := nextWatchId w;
     pending := pending w; published := published w;
     stopRequests := S (stopRequests w) |}.

(** The callback of a watch, lines 82-99: it runs while the watch is
    registered, and every run hands the location to
    [startLocationTracking]. *)
Definition onPosition (id : Z) (p : position) (now : number) (w : page) : page :=
  if decide (id ∈ watches w) then
    let l := toLocation p now in
    let w := with_ui (setCurrentLocation l) w in
    {| ui := ui w; watches := watches w; nextWatchId := nextWatchId w;
       pending := pending w; published := (id, l) :: published w;
       stopRequests := stopRequests w |}
  else w.

(** What can happen to the page. *)
Inductive event : Type :=
| ClickStart
| ClickStop
| Settle (i : nat) (r : settlement)
| Position (id : Z) (p : position) (now : number).

(** The controls of lines 290-308: the start button is rendered while
    [isTracking] is false (disabled when the permission is denied), the stop
    button while it is true.  [Settle i r] settles the promise the [i]-th
    suspended invocation waits for. *)
Definition step (w : page) (e : event) : page :=
  match e with
  | ClickStart =>
      if isTracking (ui w) then w
      else match locationPermission (ui w) with
           | Denied => w
           | _ => startTracking w
           end
  | ClickStop => if isTracking (ui w) then stopTracking w else w
  | Settle i r =>
      match pending w !! i with
      | Some t =>
          match resume t r w with
          | (w', Some t') => with_pending (fun ts => <[i := t']> ts) w'
          | (w', None) => with_pending (fun ts => delete i ts) w'
          end
      | None => w
      end
  | Position id p now => onPosition id p now w
  end.

Definition run (es : list event) (w : page) : page := foldl step w es.

(** The page after mounting, for a driver whose permission is [perm]. *)
Definition mount (perm : permission) : page :=
  {| ui := {| isTracking := false; currentLocation := None;
              locationError := ""; watchId := None; tripStartTime := None;
              passengerCount := 0; locationPermission := perm |};
     watches := ∅; nextWatchId := 1; pending := [];
     published := []; stopRequests := 0 |}.

(** Whether a click on the start control starts anything: the control is
    rendered and enabled. *)
Definition start_offered (w : page) : bool :=
  negb (isTracking (ui w))
  && match locationPermission (ui w) with
     | Denied => false
     | _ => true
     end.

(** A sequence of events in which the start control is used only while no
    earlier invocation of [startTracking] is still suspended. *)
Fixpoint one_at_a_time (es : list event) (w : page) : bool :=
  match es with
  | [] => true
  | e :: es' =>
      match e with
      | ClickStart =>
          negb (start_offered w)
          || match pending w with
             | [] => true
             | _ => false
             end
      | _ => true
      end
      && one_at_a_time es' (step w e)
  end.

(** The component and the browser agree: the component shows tracking
    exactly when it remembers a watch, the watch it remembers is registered,
    and every watch that is registered or has published was handed out by
    [watchPosition]. *)
Definition coherent (w : page) : Prop :=
  (isTracking (ui w) = true <-> is_Some (watchId (ui w)))
  /\ (forall id, watchId (ui w) = Some id -> id ∈ watches w)
  /\ (forall id, id ∈ watches w -> (1 <= id < nextWatchId w)%Z)
  /\ (forall id l, In (id, l) (published w) -> (1 <= id < nextWatchId w)%Z)
  /\ (1 <= nextWatchId w)%Z.

(** The watches the component can account for: the one it remembers. *)
Definition remembered (w : page) : gset Z :=
  match watchId (ui w) with
  | Some id => {[id]}
  | None => ∅
  end.

(** At most one invocation of [startTracking] is suspended, and while one is
    suspended before its watch is registered the component is not
    tracking. *)
Definition orderly (w : page) : Prop :=
  watches w = remembered w
  /\ (isTracking (ui w) = false -> watchId (ui w) = None)
  /\ (pending w = []
      \/ exists t, pending w = [t]
                   /\ (t <> AwaitStatusUpdate -> isTracking (ui w) = false)).

(** *** The trip clock *)

(** [String.prototype.padStart(2, '0')]. *)
Definition padStart2 (s : string) : string :=
  match String.length s with
  | 0 => "00"
  | 1 => "0" +:+ s
  | _ => s
  end.

(** Lines 160-162 on the difference [diff] of two [getTime()] readings, in
    milliseconds.  The readings are integers; on integers of magnitude below
    2^53 the quotients and remainders of these lines are exact, [%] keeps
    the sign of the dividend and [Math.floor] rounds towards minus
    infinity. *)
Definition tripClock (diff : Z) : Z * Z * Z :=
  ((diff / (1000 * 60 * 60))%Z,
   (Z.rem diff (1000 * 60 * 60) / (1000 * 60))%Z,
   (Z.rem diff (1000 * 60) / 1000)%Z).

(** [getTripDuration], lines 155-165, for a trip that started at
    [tripStartTime] read at [now]. *)
Definition getTripDuration (tripStartTime : option Z) (now : Z) : string :=
  match tripStartTime with
  | None => "00:00:00"
  | Some start =>
      let '(hours, minutes, seconds) := tripClock (now - start) in
      padStart2 (pretty hours) +:+ ":" +:+ padStart2 (pretty minutes)
      +:+ ":" +:+ padStart2 (pretty seconds)
  end.

End DriverDashboard.

(* ===================================================================== *)
(** ** Properties of the sampler and its estimator *)
(* ===================================================================== *)

Section SamplerProperties.
Import JS LocationService.
Local Open Scope float_scope.

(** [Math.round] on the cases the language standard singles out. *)
Example Math_round_cases :
  Math_round 2.5 = 3 /\ Math_round (-2.5) = -2 /\ Math_round (-2.6) = -3
  /\ Math_round 0.49999999999999994 = 0 /\ Math_round (-0.3) = -0
  /\ Math_round 17871.5 = 17872 /\ Math_round infinity = infinity.
Proof. repeat split. Qed.

(** Two numbers that [<?] tells apart against some bound are different. *)
Lemma number_neq_by_bound (bound x y : number) :
  (x <? bound) = true -> (y <? bound) = false -> x <> y.
Proof. intros Hx Hy ->. rewrite Hx in Hy. discriminate. Qed.

(** The method as one equation on the state of the service. *)
Lemma calculateSpeed_unfold `{MathHost} now0 now1 coords svc :
  calculateSpeed now0 now1 coords svc =
  match previousLocation svc, previousTimestamp svc with
  | Some prev, Some ts =>
      if truthy ts
      then (roundOneDecimal (derivedSpeed prev ts coords now0),
            set_previous coords now1 svc)
      else (or_zero (speed coords), set_previous coords now0 svc)
  | _, _ => (or_zero (speed coords), set_previous coords now0 svc)
  end.
Proof.
  destruct svc as [w [prev|] [ts|]];
    unfold calculateSpeed, bind, get, modify, ret;
    cbn [previousLocation previousTimestamp];
    try destruct (truthy ts); reflexivity.
Qed.

(** The rounding of the derived speed when no time has elapsed. *)
Lemma roundOneDecimal_zero : roundOneDecimal 0 = 0.
Proof. reflexivity. Qed.

(** C3, as the code has it.  A call reads the clock at [now0] and, where it
    derives the speed, a second time at [now1].  [calculateSpeed] is
    [deriveSpeedKmh_readings] on the estimator state, and [deriveSpeedKmh]
    when the clock does not tick inside the call.  The previous fix is used
    when the coordinate and a truthy timestamp are both there: the value is
    then the speed derived over the time elapsed up to [now0], rounded to one
    decimal place, exactly 0 (not negative, not NaN) when no time has
    elapsed, and the state records the later reading [now1].  In every other
    state the provider's speed, or 0, is returned as it is, and the state
    records [now0].  The state ends at the new coordinate in every branch,
    and the watch identifier is untouched. *)
Theorem calculateSpeed_is_deriveSpeedKmh `{MathHost} :
  forall (svc : t) (coord : GeolocationCoordinates) (now0 now1 : number),
    let r := calculateSpeed now0 now1 coord svc in
    (r.1, estimator r.2) = deriveSpeedKmh_readings (estimator svc) coord now0 now1
    /\ (now1 = now0 ->
        (r.1, estimator r.2) = deriveSpeedKmh (estimator svc) coord now0)
    /\ r.1 = (deriveSpeedKmh (estimator svc) coord now0).1
    /\ previousLocation r.2 = Some coord
    /\ (previousTimestamp r.2 = Some now0 \/ previousTimestamp r.2 = Some now1)
    /\ watchId r.2 = watchId svc
    /\ (forall prev ts,
          previousLocation svc = Some prev ->
          previousTimestamp svc = Some ts ->
          truthy ts = true ->
          r.1 = roundOneDecimal (derivedSpeed prev ts coord now0)
          /\ previousTimestamp r.2 = Some now1
          /\ ((0 <? (now0 - ts) / 1000) = false ->
              r.1 = 0 /\ isNaN r.1 = false /\ (r.1 <? 0) = false))
    /\ (previousLocation svc = None \/ truthy_opt (previousTimestamp svc) = false ->
        r.1 = or_zero (speed coord) /\ previousTimestamp r.2 = Some now0).
Proof.
  intros svc coord now0 now1 r. subst r.
  rewrite calculateSpeed_unfold.
  unfold deriveSpeedKmh_readings, deriveSpeedKmh, estimator.
  destruct svc as [w [prev|] [ts|]];
    cbn [previousLocation previousTimestamp previousCoord previousTimestampMs
         truthy_opt];
    try destruct (truthy ts) eqn:Hts;
    cbn [fst snd set_previous previousLocation previousTimestamp watchId];
    (split; [reflexivity|]);
    (split; [intros ->; reflexivity|]);
    (split; [reflexivity|]); (split; [reflexivity|]);
    (split; [auto|]); (split; [reflexivity|]);
    split; try (intros prev' ts' [=]; fail);
    try (intros prev' ts' _ [=]; fail); try (intros _; split; reflexivity).
  - intros prev' ts' [= <-] [= <-] _. split; [reflexivity|]. split; [reflexivity|].
    intros Hel. unfold derivedSpeed. rewrite Hel.
    rewrite roundOneDecimal_zero. repeat split; reflexivity.
  - intros [[=]|[=]].
  - intros prev' ts' _ [= <-] Habs. congruence.
Qed.

(** The theorem at a second fix, 1.5 km from the first and three seconds
    after it, in a call during which the clock moves from 4000 to 4007: the
    speed is measured up to 4000, and the state records 4007. *)
Lemma calculateSpeed_is_deriveSpeedKmh_witness :
  let prev := mkCoords 11.0168 76.9558 5 None in
  let coord := mkCoords 11.0045 76.9612 5 (Some 7.5) in
  let svc := mkService (Some 1%Z) (Some prev) (Some 1000) in
  let r := calculateSpeed (H := series_host) 4000 4007 coord svc in
  truthy 1000 = true
  /\ r.1 = 1787.1
  /\ previousLocation r.2 = Some coord
  /\ previousTimestamp r.2 = Some 4007.
Proof.
  intros prev coord svc r. split; [reflexivity|].
  pose proof (calculateSpeed_is_deriveSpeedKmh (H := series_host) svc coord 4000 4007)
    as (_ & _ & _ & Hloc & _ & _ & Hfix & _).
  destruct (Hfix prev 1000 eq_refl eq_refl eq_refl) as (Hv & Hts & _).
  split; [|split; [exact Hloc|exact Hts]].
  etransitivity; [exact Hv|]. vm_compute. reflexivity.
Defined.

(** C3, as it is worded, fails at two inputs.  On a service that holds no
    fix, a provider speed of 0.25 is returned as 0.25, where the reference
    rounds it to 0.3.  On a service that holds a fix stamped 1000, in a call
    during which the clock moves from 4000 to 4007, the speed is the one
    derived at 4000 and the state records 4007: the reference at 4000 ends in
    another state, and the reference at 4007 returns another speed. *)
Lemma calculateSpeed_differs_from_spec :
  (let coord := mkCoords 11.0168 76.9558 5 (Some 0.25) in
   (calculateSpeed (H := series_host) 1000 1000 coord create).1
   <> (deriveSpeedKmh_spec (H := series_host) (estimator create) coord 1000).1)
  /\
  (let prev := mkCoords 11.0168 76.9558 5 None in
   let coord := mkCoords 11.0045 76.9612 5 None in
   let svc := mkService (Some 1%Z) (Some prev) (Some 1000) in
   let r := calculateSpeed (H := series_host) 4000 4007 coord svc in
   (r.1, estimator r.2)
   <> deriveSpeedKmh_spec (H := series_host) (estimator svc) coord 4000
   /\ (r.1, estimator r.2)
      <> deriveSpeedKmh_spec (H := series_host) (estimator svc) coord 4007).
Proof.
  split.
  - apply (number_neq_by_bound 0.28); reflexivity.
  - cbv zeta. split.
    + intros E.
      apply (f_equal (fun p => default 0 (previousTimestampMs p.2))) in E.
      revert E. apply not_eq_sym, (number_neq_by_bound 4003); reflexivity.
    + intros E. apply (f_equal fst) in E. revert E.
      apply not_eq_sym, (number_neq_by_bound 1785); reflexivity.
Qed.

(** *** The shared state of one-shot fetches and watch ticks *)

(** The state a call leaves: the fix, stamped with the later reading where a
    previous fix was used and with the first one otherwise. *)
Lemma calculateSpeed_state `{MathHost} now0 now1 coords svc :
  (calculateSpeed now0 now1 coords svc).2
  = set_previous coords (if has_previous_fix svc then now1 else now0) svc.
Proof.
  rewrite calculateSpeed_unfold. unfold has_previous_fix.
  destruct svc as [w [prev|] [ts|]];
    cbn [previousLocation previousTimestamp truthy_opt];
    try destruct (truthy ts); reflexivity.
Qed.

(** The call that follows a recorded fix derives its speed from it. *)
Lemma calculateSpeed_after_fix `{MathHost} m0 m1 next coords ts svc :
  truthy ts = true ->
  calculateSpeed m0 m1 next (set_previous coords ts svc)
  = (roundOneDecimal (derivedSpeed coords ts next m0), set_previous next m1 svc).
Proof.
  intros Hts. rewrite calculateSpeed_unfold.
  cbn [set_previous previousLocation previousTimestamp]. rewrite Hts. reflexivity.
Qed.

(** C9.  [getCurrentPosition] on a page without a geolocation object, or
    answered with an error, is rejected and leaves the runtime as it was.
    Answered with a fix, it returns the sample of that fix and leaves the
    service with the fix as previous location, stamped with a clock reading
    of the call (the second where a previous fix was used, the first
    otherwise), and everything else as before: the runtime a tick of a
    registered watch with the same fix and readings leaves, which hands on
    the same sample.  Whatever samples next on that runtime, a fetch or a
    tick of a registered watch, returns the speed derived from the distance
    to the fetched fix and the time since its stamp. *)
Theorem getCurrentPosition_shares_estimator `{MathHost} :
  forall (rt : Runtime) (coords : GeolocationCoordinates) (n0 n1 n2 : number),
    (geolocation rt = None ->
     getCurrentPosition (Fix coords) n0 n1 n2 rt
     = (Throws "Geolocation is not supported", rt))
    /\ (forall message,
          (getCurrentPosition (Failure message) n0 n1 n2 rt).2 = rt)
    /\ forall g : Geolocation,
         geolocation rt = Some g ->
         let ts := if has_previous_fix (service rt) then n1 else n0 in
         let fetched := getCurrentPosition (Fix coords) n0 n1 n2 rt in
         let sample :=
           sample_of coords (calculateSpeed n0 n1 coords (service rt)).1 n2 in
         fetched
         = (Returns sample,
            {| service := set_previous coords ts (service rt);
               geolocation := Some g |})
         /\ (forall id, id ∈ watches g ->
               deliver id n0 n1 n2 coords rt = (Some sample, fetched.2))
         /\ (truthy ts = true ->
             forall (next : GeolocationCoordinates) (m0 m1 m2 : number),
               let v := roundOneDecimal (derivedSpeed coords ts next m0) in
               let rt' := {| service := set_previous next m1 (service rt);
                             geolocation := Some g |} in
               getCurrentPosition (Fix next) m0 m1 m2 fetched.2
               = (Returns (sample_of next v m2), rt')
               /\ forall id, id ∈ watches g ->
                    deliver id m0 m1 m2 next fetched.2
                    = (Some (sample_of next v m2), rt')).
Proof.
  intros rt coords n0 n1 n2. split; [|split].
  - intros Hg. unfold getCurrentPosition. rewrite Hg. reflexivity.
  - intros message. unfold getCurrentPosition.
    destruct (geolocation rt); reflexivity.
  - intros g Hg ts fetched sample.
    assert (Hfetched : fetched
              = (Returns sample,
                 {| service := set_previous coords ts (service rt);
                    geolocation := Some g |})).
    { subst fetched ts sample. unfold getCurrentPosition. rewrite Hg.
      unfold getCurrentPosition_onSuccess, bind, ret.
      rewrite <- calculateSpeed_state.
      destruct (calculateSpeed n0 n1 coords (service rt)) as [v svc].
      reflexivity. }
    split; [exact Hfetched|]. rewrite Hfetched. cbn [snd]. split.
    + intros id Hid. unfold deliver. rewrite Hg.
      rewrite decide_True by exact Hid.
      unfold startWatching_onPosition, bind, ret. subst ts sample.
      rewrite <- calculateSpeed_state.
      destruct (calculateSpeed n0 n1 coords (service rt)) as [v svc].
      reflexivity.
    + intros Hts next m0 m1 m2. cbv zeta. split.
      * unfold getCurrentPosition. cbn [geolocation service].
        unfold getCurrentPosition_onSuccess, bind, ret.
        rewrite (calculateSpeed_after_fix _ _ _ _ _ _ Hts). reflexivity.
      * intros id Hid. unfold deliver. cbn [geolocation service].
        rewrite decide_True by exact Hid.
        unfold startWatching_onPosition, bind, ret.
        rewrite (calculateSpeed_after_fix _ _ _ _ _ _ Hts). reflexivity.
Qed.

(** The theorem at a service that watches under identifier 1 and holds no
    fix yet.  A fetch records its fix with the first reading, 1000; a tick of
    the watch three seconds later and 1.5 km away reports 1787.1 km/h, and so
    would a second fetch. *)
Lemma getCurrentPosition_shares_estimator_witness :
  let fix1 := mkCoords 11.0168 76.9558 5 None in
  let fix2 := mkCoords 11.0045 76.9612 5 None in
  let g := mkGeolocation {[1%Z]} 2 in
  let rt := {| service := mkService (Some 1%Z) None None; geolocation := Some g |} in
  let fetched := getCurrentPosition (H := series_host) (Fix fix1) 1000 1001 1002 rt in
  (geolocation rt = Some g /\ 1%Z ∈ watches g /\ truthy 1000 = true)
  /\ service fetched.2 = mkService (Some 1%Z) (Some fix1) (Some 1000)
  /\ deliver (H := series_host) 1 4000 4001 4002 fix2 fetched.2
     = (Some (sample_of fix2 1787.1 4002),
        {| service := mkService (Some 1%Z) (Some fix2) (Some 4001);
           geolocation := Some g |})
  /\ (getCurrentPosition (H := series_host) (Fix fix2) 4000 4001 4002 fetched.2).1
     = Returns (sample_of fix2 1787.1 4002).
Proof.
  intros fix1 fix2 g rt fetched.
  assert (Hin : 1%Z ∈ watches g) by (vm_compute; reflexivity).
  split; [split; [reflexivity|split; [exact Hin|reflexivity]]|].
  destruct (getCurrentPosition_shares_estimator (H := series_host)
              rt fix1 1000 1001 1002) as (_ & _ & Hfix).
  destruct (Hfix g eq_refl) as (Hfetched & _ & Hnext).
  fold fetched in Hfetched, Hnext.
  destruct (Hnext eq_refl fix2 4000 4001 4002) as [Hget Htick].
  assert (Hv : roundOneDecimal
                 (derivedSpeed (H := series_host) fix1
                    (if has_previous_fix (service rt) then 1001 else 1000)
                    fix2 4000)
               = 1787.1) by (vm_compute; reflexivity).
  cbv zeta in Hget, Htick. rewrite Hv in Hget, Htick.
  split; [rewrite Hfetched; reflexivity|].
  split; [exact (Htick 1%Z Hin)|].
  rewrite Hget. reflexivity.
Defined.

(** *** Stopping the watch *)

Lemma not_elem_of_cleared (id : Z) (ws : gset Z) : id ∉ ws ∖ {[id]}.
Proof.
  intros [_ Hne]%elem_of_difference. apply Hne, elem_of_singleton. reflexivity.
Qed.

Lemma boot_consistent g : consistent (boot g) = true.
Proof. reflexivity. Qed.

Lemma startWatching_consistent rt rt' :
  startWatching rt = Returns rt' -> consistent rt' = true.
Proof.
  unfold startWatching. destruct (geolocation rt) as [g|]; [|discriminate].
  intros [= <-]. reflexivity.
Qed.

Lemma stopWatching_consistent rt rt' :
  stopWatching rt = Returns rt' -> consistent rt = true -> consistent rt' = true.
Proof.
  unfold stopWatching, consistent.
  destruct (watchId (service rt)) as [id|] eqn:Hid.
  - destruct (geolocation rt) as [g|]; [|discriminate].
    intros [= <-]. reflexivity.
  - intros [= <-]. rewrite Hid. reflexivity.
Qed.

(** C8.  On a consistent runtime [stopWatching] returns, without an
    exception.  When the service holds a watch, the watch is taken off the
    browser's list, the service is back in its initial state (no identifier,
    no previous location, no previous timestamp), and no position delivered
    to that watch reaches the callback any more.  When it holds none, never
    started or already stopped, nothing changes at all; so a second call
    returns the runtime the first one left. *)
Theorem stopWatching_cancels_and_is_idempotent `{MathHost} :
  forall rt : Runtime,
    consistent rt = true ->
    exists rt',
      stopWatching rt = Returns rt'
      /\ watchId (service rt') = None
      /\ (forall id, watchId (service rt) = Some id ->
            service rt' = create
            /\ (exists g, geolocation rt' = Some g /\ id ∉ watches g)
            /\ forall n0 n1 n2 coords,
                 deliver id n0 n1 n2 coords rt' = (None, rt'))
      /\ (watchId (service rt) = None -> rt' = rt)
      /\ stopWatching rt' = Returns rt'.
Proof.
  intros rt Hc. unfold consistent in Hc. unfold stopWatching at 1.
  destruct rt as [[[id|] prev ts] [g|]]; cbn in *; try discriminate.
  - eexists. split; [reflexivity|]. cbn. split; [reflexivity|]. split.
    + intros id' [= <-]. split; [reflexivity|]. split.
      * eexists. split; [reflexivity|]. cbn. apply not_elem_of_cleared.
      * intros n0 n1 n2 coords. unfold deliver. cbn.
        destruct (decide (id ∈ watches g ∖ {[id]})) as [Hin|]; [|reflexivity].
        destruct (not_elem_of_cleared id (watches g) Hin).
    + split; [discriminate|reflexivity].
  - eexists. split; [reflexivity|]. cbn. split; [reflexivity|]. split.
    + intros id [=].
    + split; reflexivity.
  - eexists. split; [reflexivity|]. cbn. split; [reflexivity|]. split.
    + intros id [=].
    + split; reflexivity.
Qed.

(** The theorem on a service that watches under identifier 1 and has
    smoothed two fixes. *)
Lemma stopWatching_cancels_and_is_idempotent_witness :
  let fix1 := mkCoords 11.0168 76.9558 5 None in
  let rt := {| service := mkService (Some 1%Z) (Some fix1) (Some 1000);
               geolocation := Some (mkGeolocation {[1%Z]} 2) |} in
  consistent rt = true /\
  exists rt', stopWatching rt = Returns rt' /\ service rt' = create
              /\ stopWatching rt' = Returns rt'.
Proof.
  intros fix1 rt.
  split; [reflexivity|].
  destruct (stopWatching_cancels_and_is_idempotent (H := series_host) rt eq_refl)
    as (rt' & Hstop & _ & Hwatch & _ & Hagain).
  exists rt'. split; [exact Hstop|]. split; [|exact Hagain].
  exact (proj1 (Hwatch 1%Z eq_refl)).
Defined.

End SamplerProperties.

(* ===================================================================== *)
(** ** Properties of the shared store *)
(* ===================================================================== *)

Section StoreProperties.
Import JS Firestore FirebaseService.

(** *** Filters and the first document of an ordered query *)

Lemma where_eq_VString (f s : string) (d : document) :
  where_eq f (VString s) d = true <-> d !! f = Some (VString s).
Proof.
  unfold where_eq. destruct (d !! f) as [[x|x|b]|]; cbn.
  - rewrite bool_decide_eq_true. split; congruence.
  - split; [discriminate|congruence].
  - split; [discriminate|congruence].
  - split; discriminate.
Qed.

Lemma where_eq_VBoolean (f : string) (b : bool) (d : document) :
  where_eq f (VBoolean b) d = true <-> d !! f = Some (VBoolean b).
Proof.
  unfold where_eq. destruct (d !! f) as [[x|x|b']|]; cbn.
  - split; [discriminate|congruence].
  - split; [discriminate|congruence].
  - rewrite Bool.eqb_true_iff. split; congruence.
  - split; discriminate.
Qed.

Lemma first_desc_elem (f : string) (docs : list (string * document)) x :
  first_desc f docs = Some x -> In x docs /\ is_Some (x.2 !! f).
Proof.
  unfold first_desc. revert x.
  induction docs as [|y docs IH]; cbn; [discriminate|].
  intros x. case_bool_decide as Hy; cbn.
  - destruct (foldr _ None _) as [best|] eqn:Hbest.
    + destruct (before_desc f y best); intros [= <-].
      * split; [left; reflexivity|exact Hy].
      * destruct (IH best eq_refl). split; [right|]; assumption.
    + intros [= <-]. split; [left; reflexivity|exact Hy].
  - intros Hx. destruct (IH x Hx). split; [right|]; assumption.
Qed.

Lemma first_desc_None (f : string) (docs : list (string * document)) :
  first_desc f docs = None <-> forall x, In x docs -> x.2 !! f = None.
Proof.
  unfold first_desc.
  induction docs as [|y docs IH]; cbn; [split; [intros _ x []|reflexivity]|].
  case_bool_decide as Hy; cbn.
  - split.
    + destruct (foldr _ None _) as [best|]; [destruct (before_desc f y best)|];
        discriminate.
    + intros Hall. destruct Hy as [v Hv]. rewrite (Hall y) in Hv; [discriminate|].
      left; reflexivity.
  - rewrite IH. split.
    + intros Hall x [<-|Hx]; [|exact (Hall x Hx)].
      destruct (y.2 !! f) eqn:E; [|reflexivity]. destruct Hy. eauto.
    + intros Hall x Hx. apply Hall. right; exact Hx.
Qed.

Lemma liveLocationQuery_In (bus : string) (db : collection) x :
  In x (liveLocationQuery bus db) <-> db !! x.1 = Some x.2 /\ activeFor bus x.2.
Proof.
  unfold liveLocationQuery, activeFor.
  rewrite filter_In, andb_true_iff, where_eq_VString, where_eq_VBoolean.
  rewrite <- list_elem_of_In, elem_of_map_to_list'. reflexivity.
Qed.

(** *** One record per key *)

Lemma filter_key_absent {A} (P : string * A -> bool) (id : string)
    (l : list (string * A)) :
  id ∉ l.*1 ->
  List.filter (fun x => bool_decide (x.1 = id) && P x) l = [].
Proof.
  induction l as [|[k v] l IH]; cbn; [reflexivity|].
  intros Hid. apply not_elem_of_cons in Hid as [Hne Hid].
  rewrite bool_decide_eq_false_2 by congruence. cbn. auto.
Qed.

Lemma filter_key_length {A} (P : string * A -> bool) (id : string)
    (l : list (string * A)) :
  NoDup (l.*1) ->
  length (List.filter (fun x => bool_decide (x.1 = id) && P x) l) <= 1.
Proof.
  induction l as [|[k v] l IH]; cbn; [lia|].
  intros [Hk Hnd]%NoDup_cons. case_bool_decide as Hkid; cbn.
  - subst k. rewrite (filter_key_absent P id l Hk).
    destruct (P (id, v)); cbn; lia.
  - auto.
Qed.

Lemma activeRecords_length (id : string) (db : collection) :
  length (activeRecords id db) <= 1.
Proof. apply filter_key_length, NoDup_fst_map_to_list. Qed.

Lemma activeRecords_In (id : string) (db : collection) x :
  In x (activeRecords id db) <->
  x.1 = id /\ db !! id = Some x.2 /\ x.2 !! "isActive" = Some (VBoolean true).
Proof.
  unfold activeRecords, active.
  rewrite filter_In, andb_true_iff, bool_decide_eq_true, where_eq_VBoolean.
  rewrite <- list_elem_of_In, elem_of_map_to_list'.
  split; [intros (Hin & <- & Hact)|intros (<- & Hin & Hact)]; auto.
Qed.

(** The number of active records under a key is read off the record the
    store holds under it. *)
Lemma activeRecords_count (id : string) (db : collection) :
  length (activeRecords id db) =
  match db !! id with
  | Some d => if active d then 1 else 0
  | None => 0
  end.
Proof.
  pose proof (activeRecords_length id db) as Hle.
  destruct (activeRecords id db) as [|x rest] eqn:Hrec.
  - destruct (db !! id) as [d|] eqn:Hd; [|reflexivity].
    destruct (active d) eqn:Hact; [|reflexivity].
    assert (Hin : In (id, d) (activeRecords id db)).
    { apply activeRecords_In. cbn. split; [reflexivity|]. split; [exact Hd|].
      apply where_eq_VBoolean, Hact. }
    rewrite Hrec in Hin. destruct Hin.
  - assert (Hin : In x (activeRecords id db)) by (rewrite Hrec; left; reflexivity).
    apply activeRecords_In in Hin as (_ & Hx & Hact).
    rewrite Hx. unfold active.
    rewrite (proj2 (where_eq_VBoolean "isActive" true x.2) Hact).
    cbn in Hle |- *. lia.
Qed.

(** *** The fields [updateLiveLocation] and [stopLiveLocation] write *)

Lemma toData_isActive l : toData l !! "isActive" = Some (VBoolean (isActive l)).
Proof. reflexivity. Qed.

Lemma toData_timestamp l : toData l !! "timestamp" = Some (VNumber (timestamp l)).
Proof. reflexivity. Qed.

Lemma toData_busNumber l : toData l !! "busNumber" = Some (VString (busNumber l)).
Proof. reflexivity. Qed.

Lemma stopData_lookup (now : number) (f : string) :
  stopData now !! f =
  if decide (f = "isActive") then Some (VBoolean false)
  else if decide (f = "stoppedAt") then Some (VNumber now)
  else None.
Proof.
  unfold stopData. repeat case_decide; subst.
  - reflexivity.
  - reflexivity.
  - rewrite !lookup_insert_ne by congruence. apply lookup_empty.
Qed.

Lemma updateLiveLocation_lookup l (db : collection) (id : string) :
  updateLiveLocation l db !! id =
  if decide (driverId l = id)
  then Some (toData l ∪ default ∅ (db !! driverId l))
  else db !! id.
Proof. unfold updateLiveLocation, setDoc_merge. apply lookup_insert. Qed.

Lemma stopLiveLocation_Returns (id : string) now (db db' : collection) :
  stopLiveLocation id now db = Returns db' <->
  exists d, db !! id = Some d /\ db' = <[id := stopData now ∪ d]> db.
Proof.
  unfold stopLiveLocation, updateDoc. destruct (db !! id) as [d|].
  - split; [intros [= <-]; eauto|intros (d' & [= <-] & ->); reflexivity].
  - split; [discriminate|intros (d' & [=] & _)].
Qed.

(** *** Publishing *)



(** *** Deactivating *)

(** C6.  On an existing record [stopLiveLocation] returns, and the record
    stored afterwards has [isActive] false, [stoppedAt] the current time, and
    every other field as before; the records under other keys are as
    before. *)
Theorem stopLiveLocation_frame :
  forall (id : string) (now : number) (db : collection) (d : document),
    db !! id = Some d ->
    exists db' d',
      stopLiveLocation id now db = Returns db'
      /\ db' !! id = Some d'
      /\ d' !! "isActive" = Some (VBoolean false)
      /\ d' !! "stoppedAt" = Some (VNumber now)
      /\ (forall f, f <> "isActive" -> f <> "stoppedAt" -> d' !! f = d !! f)
      /\ (forall id', id' <> id -> db' !! id' = db !! id').
Proof.
  intros id now db d Hd.
  exists (<[id := stopData now ∪ d]> db), (stopData now ∪ d).
  split; [apply stopLiveLocation_Returns; eauto|].
  split; [apply lookup_insert_eq|].
  split; [apply lookup_union_Some_l; reflexivity|].
  split; [apply lookup_union_Some_l; reflexivity|].
  split.
  - intros f Hf1 Hf2. apply lookup_union_r. rewrite stopData_lookup.
    repeat case_decide; congruence.
  - intros id' Hne. apply lookup_insert_ne. congruence.
Qed.

(** The theorem at the record of driver D1 after one publish: the sample
    stays, the flag and the stop time change. *)
Lemma stopLiveLocation_frame_witness :
  let l := mkLiveLocation "D1" "R1" 11 76 42 1000 5 true in
  let db := history [Publish l] ∅ in
  db !! "D1" = Some (toData l ∪ ∅)
  /\ exists db' d',
       stopLiveLocation "D1" 2000 db = Returns db'
       /\ db' !! "D1" = Some d'
       /\ d' !! "isActive" = Some (VBoolean false)
       /\ d' !! "speed" = Some (VNumber 42).
Proof.
  intros l db.
  assert (Hd : db !! "D1" = Some (toData l ∪ ∅)) by reflexivity.
  split; [exact Hd|].
  destruct (stopLiveLocation_frame "D1" 2000 db _ Hd)
    as (db' & d' & Hstop & Hd' & Hact & _ & Hframe & _).
  exists db', d'. split; [exact Hstop|]. split; [exact Hd'|]. split; [exact Hact|].
  rewrite (Hframe "speed") by discriminate. reflexivity.
Defined.

(** The keys of a history are those of the store it started from and those
    published since. *)
Lemma history_lookup_is_Some (ops : list operation) (db : collection) (id : string) :
  is_Some (history ops db !! id) <->
  is_Some (db !! id) \/ exists l, In (Publish l) ops /\ driverId l = id.
Proof.
  unfold history. revert db.
  induction ops as [|op ops IH]; intros db; cbn [foldl].
  - split; [auto|]. intros [H|(l & [] & _)]. exact H.
  - rewrite IH. clear IH. destruct op as [l|id' now]; cbn [perform].
    + rewrite updateLiveLocation_lookup. case_decide as Hid.
      * split; [intros _; right; exists l; split; [left; reflexivity|exact Hid]|].
        intros _. left. eauto.
      * split.
        -- intros [H|(l' & Hin & Hl')]; [left; exact H|].
           right. exists l'. split; [right; exact Hin|exact Hl'].
        -- intros [H|(l' & [[= ->]|Hin] & Hl')]; [left; exact H|congruence|].
           right. eauto.
    + assert (Hsame : is_Some (match stopLiveLocation id' now db with
                               | Returns db' => db'
                               | Throws _ => db
                               end !! id) <-> is_Some (db !! id)).
      { unfold stopLiveLocation, updateDoc. destruct (db !! id') as [d|] eqn:Hd.
        - rewrite lookup_insert. case_decide; [subst; rewrite Hd|]; split; eauto.
        - reflexivity. }
      rewrite Hsame. split.
      * intros [H|(l' & Hin & Hl')]; [left; exact H|].
        right. exists l'. split; [right; exact Hin|exact Hl'].
      * intros [H|(l' & [[=]|Hin] & Hl')]; [left; exact H|]. right. eauto.
Qed.

(** C10.  Under a key that holds no record [stopLiveLocation] is rejected
    with [not-found] and the store it was called on is the store that
    remains, still without a record under the key.  In a history that
    started from the empty store it returns exactly when an earlier publish
    carried that key. *)
Theorem stopLiveLocation_needs_a_record :
  forall (ops : list operation) (id : string) (now : number),
    (forall db : collection,
        db !! id = None ->
        stopLiveLocation id now db = Throws "not-found"
        /\ perform db (Deactivate id now) = db
        /\ perform db (Deactivate id now) !! id = None)
    /\ ((exists db', stopLiveLocation id now (history ops ∅) = Returns db')
        <-> exists l, In (Publish l) ops /\ driverId l = id).
Proof.
  intros ops id now. split.
  - intros db Hnone. unfold perform, stopLiveLocation, updateDoc.
    rewrite Hnone. auto.
  - pose proof (history_lookup_is_Some ops ∅ id) as Hkeys.
    rewrite lookup_empty in Hkeys. split.
    + intros (db' & (d & Hd & _)%stopLiveLocation_Returns).
      destruct (proj1 Hkeys (mk_is_Some _ _ Hd)) as [[x Hx]|Hl];
        [discriminate|exact Hl].
    + intros Hl. destruct (proj2 Hkeys (or_intror Hl)) as [d Hd].
      eexists. apply stopLiveLocation_Returns. eauto.
Qed.

(** The theorem at the empty store, and at the store one publish leaves. *)
Lemma stopLiveLocation_needs_a_record_witness :
  let l := mkLiveLocation "D1" "R1" 11 76 42 1000 5 true in
  (∅ : collection) !! "D1" = None
  /\ stopLiveLocation "D1" 2000 ∅ = Throws "not-found"
  /\ exists db', stopLiveLocation "D1" 2000 (history [Publish l] ∅) = Returns db'.
Proof.
  intros l.
  destruct (stopLiveLocation_needs_a_record [Publish l] "D1" 2000)
    as [Hmissing Hpublished].
  split; [reflexivity|]. split.
  - exact (proj1 (Hmissing ∅ eq_refl)).
  - apply Hpublished. exists l. split; [left|]; reflexivity.
Defined.

(** *** Subscribing *)

Lemma perform_timestamped (db : collection) (op : operation) :
  timestamped db -> timestamped (perform db op).
Proof.
  intros Hts id d. destruct op as [l|id' now]; cbn [perform].
  - rewrite updateLiveLocation_lookup. case_decide; [|apply Hts].
    intros [= <-]. apply lookup_union_is_Some. left.
    rewrite toData_timestamp. eauto.
  - unfold stopLiveLocation, updateDoc.
    destruct (db !! id') as [d'|] eqn:Hd'; [|apply Hts].
    rewrite lookup_insert. case_decide; [|apply Hts].
    intros [= <-]. apply lookup_union_is_Some. right. exact (Hts id' d' Hd').
Qed.

Lemma history_timestamped (ops : list operation) (db : collection) :
  timestamped db -> timestamped (history ops db).
Proof.
  unfold history. revert db.
  induction ops as [|op ops IH]; intros db Hts; cbn [foldl]; [exact Hts|].
  apply IH, perform_timestamped, Hts.
Qed.

Lemma empty_timestamped : timestamped ∅.
Proof. intros id d. rewrite lookup_empty. discriminate. Qed.

Lemma subscribeToLiveLocation_Some (bus : string) (db : collection) (d : document) :
  subscribeToLiveLocation bus db = Some d ->
  (exists id, db !! id = Some d) /\ activeFor bus d.
Proof.
  unfold subscribeToLiveLocation.
  destruct (first_desc _ _) as [x|] eqn:Hfirst; [|discriminate].
  intros [= <-]. apply first_desc_elem in Hfirst as [Hin _].
  apply liveLocationQuery_In in Hin as [Hx Hact]. eauto.
Qed.

Lemma subscribeToLiveLocation_None (bus : string) (db : collection) :
  timestamped db ->
  subscribeToLiveLocation bus db = None <->
  forall id d, db !! id = Some d -> ~ activeFor bus d.
Proof.
  intros Hts. unfold subscribeToLiveLocation.
  destruct (first_desc _ _) as [x|] eqn:Hfirst.
  - split; [discriminate|]. intros Hnone.
    apply first_desc_elem in Hfirst as [Hin _].
    apply liveLocationQuery_In in Hin as [Hx Hact].
    destruct (Hnone _ _ Hx Hact).
  - split; [|reflexivity]. intros _ id d Hd Hact.
    rewrite first_desc_None in Hfirst.
    destruct (Hts id d Hd) as [v Hv].
    assert (Hno : (id, d).2 !! "timestamp" = None).
    { apply Hfirst, liveLocationQuery_In. split; assumption. }
    cbn [snd] in Hno. congruence.
Qed.

(** The fleet view lists active records only. *)
Lemma allLiveLocationsQuery_active (db : collection) x :
  In x (allLiveLocationsQuery db) ->
  db !! x.1 = Some x.2 /\ x.2 !! "isActive" = Some (VBoolean true).
Proof.
  unfold allLiveLocationsQuery.
  rewrite filter_In, andb_true_iff, where_eq_VBoolean.
  rewrite <- list_elem_of_In, elem_of_map_to_list'. intros (Hin & Hact & _). auto.
Qed.

(** Keys are drivers, not buses: two drivers that report the same
    [busNumber] are both active, under their own keys, and the query of a
    listener selects both before it orders them and keeps one. *)
Example two_drivers_on_one_bus :
  let first := mkLiveLocation "D1" "R1" 11 76 42 1000 5 true in
  let second := mkLiveLocation "D2" "R1" 12 77 30 900 5 true in
  let db := history [Publish first; Publish second] ∅ in
  length (liveLocationQuery "R1" db) = 2
  /\ length (activeRecords "D1" db) = 1
  /\ length (activeRecords "D2" db) = 1.
Proof. repeat split. Qed.

(** C5, as the code has it.  In every store a history of publishes and
    deactivations leads to, the listener of a bus receives [null] exactly
    when no stored record is active with that [busNumber], and otherwise a
    stored record that is.  Records are stored under the driver's key, and a
    deactivation touches the one under its key: after
    [stopLiveLocation id] has returned, the listener of a bus receives [null]
    exactly when no record under another key is active for that bus. *)
Theorem subscribeToLiveLocation_null_iff :
  forall (ops : list operation) (bus : string),
    let db := history ops ∅ in
    (subscribeToLiveLocation bus db = None <->
     forall id d, db !! id = Some d -> ~ activeFor bus d)
    /\ (forall d, subscribeToLiveLocation bus db = Some d ->
          (exists id, db !! id = Some d) /\ activeFor bus d)
    /\ (forall id now db',
          stopLiveLocation id now db = Returns db' ->
          (subscribeToLiveLocation bus db' = None <->
           forall id' d, id' <> id -> db !! id' = Some d -> ~ activeFor bus d)).
Proof.
  intros ops bus db.
  assert (Hts : timestamped db) by apply history_timestamped, empty_timestamped.
  split; [exact (subscribeToLiveLocation_None bus db Hts)|].
  split; [exact (subscribeToLiveLocation_Some bus db)|].
  intros id now db' Hstop.
  assert (Hts' : timestamped db').
  { pose proof (perform_timestamped db (Deactivate id now) Hts) as H.
    cbn [perform] in H. rewrite Hstop in H. exact H. }
  rewrite (subscribeToLiveLocation_None bus db' Hts').
  apply stopLiveLocation_Returns in Hstop as (d0 & Hd0 & ->).
  split.
  - intros Hnone id' d Hne Hd. apply (Hnone id').
    rewrite lookup_insert_ne by congruence. exact Hd.
  - intros Hnone id' d. rewrite lookup_insert. case_decide as Hid.
    + intros [= <-] [_ Hact].
      rewrite (lookup_union_Some_l (stopData now) d0 "isActive" (VBoolean false))
        in Hact by reflexivity.
      discriminate.
    + apply Hnone. congruence.
Qed.

(** The theorem at a store with one driver on bus R1: the listener has a
    record before the stop and [null] after it. *)
Lemma subscribeToLiveLocation_null_iff_witness :
  let l := mkLiveLocation "D1" "R1" 11 76 42 1000 5 true in
  let db := history [Publish l] ∅ in
  let db' := history [Publish l; Deactivate "D1" 2000] ∅ in
  stopLiveLocation "D1" 2000 db = Returns db'
  /\ subscribeToLiveLocation "R1" db <> None
  /\ subscribeToLiveLocation "R1" db' = None.
Proof.
  intros l db db'.
  assert (Hstop : stopLiveLocation "D1" 2000 db = Returns db') by reflexivity.
  destruct (subscribeToLiveLocation_null_iff [Publish l] "R1")
    as (Hnull & _ & Hafter).
  split; [exact Hstop|]. split.
  - intros Hnone. apply (proj1 Hnull Hnone "D1" (toData l ∪ ∅)); [reflexivity|].
    split; reflexivity.
  - apply (Hafter "D1" 2000%float db' Hstop). intros id' d Hne.
    change (history [Publish l] ∅) with (updateLiveLocation l ∅).
    rewrite updateLiveLocation_lookup. case_decide as Hid.
    + cbn in Hid. congruence.
    + rewrite lookup_empty. discriminate.
Defined.

(** C5, as it is worded, fails.  With a driver whose key is that of the bus
    it serves and a second driver on the same bus, deactivating the key
    returns and the listener of the bus still receives a record, that of the
    second driver.  With one driver on the bus, stored under the driver's
    key, deactivating the bus's key is rejected and the listener still
    receives the record. *)
Lemma subscribeToLiveLocation_not_null_after_stop :
  (let first := mkLiveLocation "R1" "R1" 11 76 42 1000 5 true in
   let second := mkLiveLocation "D2" "R1" 12 77 30 900 5 true in
   let db := history [Publish first; Publish second] ∅ in
   exists db' d,
     stopLiveLocation "R1" 2000 db = Returns db'
     /\ subscribeToLiveLocation "R1" db' = Some d
     /\ d !! "driverId" = Some (VString "D2")
     /\ d !! "isActive" = Some (VBoolean true))
  /\
  (let only := mkLiveLocation "D1" "R1" 11 76 42 1000 5 true in
   let db := history [Publish only] ∅ in
   stopLiveLocation "R1" 2000 db = Throws "not-found"
   /\ subscribeToLiveLocation "R1" (perform db (Deactivate "R1" 2000)) <> None).
Proof.
  split.
  - cbv zeta. eexists _, _. split; [reflexivity|].
    split; [vm_compute; reflexivity|]. split; reflexivity.
  - cbv zeta. split; [reflexivity|]. vm_compute. discriminate.
Qed.

End StoreProperties.

(* ===================================================================== *)
(** ** Properties of the tracking session *)
(* ===================================================================== *)

Section SessionProperties.
Import JS DriverDashboard.

(** Once [isTracking] is set the start control is gone: a click on it
    changes nothing. *)
Lemma start_not_offered_while_tracking (w : page) :
  isTracking (ui w) = true -> step w ClickStart = w.
Proof. intros Htr. cbn [step]. rewrite Htr. reflexivity. Qed.

(** The continuation of [startTracking] registers a watch whatever the
    state of the component is: neither [isTracking] nor [watchId] is
    consulted. *)
Lemma resume_registers_a_watch (w : page) (p : position) (now : number) :
  let w' := (resume AwaitInitialFix (Fulfilled p now) w).1 in
  watches w' = {[nextWatchId w]} ∪ watches w
  /\ watchId (ui w') = Some (nextWatchId w)
  /\ isTracking (ui w') = true.
Proof. repeat split. Qed.

(** C4 on the code.  The driver, permission granted, clicks start twice
    before the first fix arrives; both fixes then arrive.  Each invocation
    registers a watch: two are running, and the component remembers the
    second only.  A click on stop clears that one; the first keeps
    delivering, and what it delivers is still published. *)
Theorem startTracking_twice_registers_two_watches :
  let fix1 := mkPosition 11.0168 76.9558 None None in
  let started :=
    run [ClickStart; ClickStart;
         Settle 0 (Fulfilled fix1 1000); Settle 1 (Fulfilled fix1 1001)]
        (mount Granted) in
  let stopped := run [ClickStop; Position 1 fix1 5000] started in
  (watches started = {[1%Z; 2%Z]}
   /\ watchId (ui started) = Some 2%Z
   /\ isTracking (ui started) = true)
  /\ (isTracking (ui stopped) = false
      /\ watchId (ui stopped) = None
      /\ watches stopped = {[1%Z]}
      /\ published stopped = [(1%Z, toLocation fix1 5000)]).
Proof.
  cbv zeta. split.
  - split; [vm_compute; reflexivity|]. split; reflexivity.
  - split; [reflexivity|]. split; [reflexivity|].
    split; [vm_compute; reflexivity|]. vm_compute. reflexivity.
Qed.

End SessionProperties.

(* ===================================================================== *)
(** ** The sampler over whole sessions *)
(* ===================================================================== *)

Section SamplerSessions.
Import JS LocationService.
Local Open Scope float_scope.

(** [x || 0] is never [NaN]. *)
Lemma or_zero_not_NaN (x : option number) : isNaN (or_zero x) = false.
Proof.
  destruct x as [v|]; cbn [or_zero]; [|reflexivity].
  destruct (truthy v) eqn:Hv; [|reflexivity].
  unfold truthy in Hv. apply andb_true_iff in Hv as [_ Hv].
  apply negb_true_iff in Hv. exact Hv.
Qed.

Lemma calculateSpeed_watchId `{MathHost} now0 now1 coords svc :
  watchId (calculateSpeed now0 now1 coords svc).2 = watchId svc.
Proof.
  rewrite calculateSpeed_unfold.
  destruct (previousLocation svc), (previousTimestamp svc) as [ts|];
    try destruct (truthy ts); reflexivity.
Qed.

Lemma onPosition_watchId `{MathHost} now0 now1 now2 coords svc :
  watchId (startWatching_onPosition now0 now1 now2 coords svc).2 = watchId svc.
Proof.
  unfold startWatching_onPosition, bind, ret.
  pose proof (calculateSpeed_watchId now0 now1 coords svc) as Hw.
  destruct (calculateSpeed now0 now1 coords svc). exact Hw.
Qed.

Lemma after_held_watch_registered `{MathHost} (rt : Runtime) (c : call) :
  held_watch_registered rt -> held_watch_registered (after rt c).
Proof.
  intros Hrt. destruct c as [answer n0 n1 n2| | |id n0 n1 n2 coords]; cbn [after].
  - unfold getCurrentPosition.
    destruct (geolocation rt) as [g|] eqn:Hg; [|exact Hrt].
    destruct answer as [coords|m]; [|exact Hrt].
    pose proof (onPosition_watchId n0 n1 n2 coords (service rt)) as Hw.
    change (startWatching_onPosition n0 n1 n2 coords (service rt))
      with (getCurrentPosition_onSuccess n0 n1 n2 coords (service rt)) in Hw.
    destruct (getCurrentPosition_onSuccess n0 n1 n2 coords (service rt))
      as [sample svc]. cbn in Hw |- *.
    intros id Hid. cbn in Hid. rewrite Hw in Hid.
    destruct (Hrt id Hid) as (g' & Hg' & Hin). rewrite Hg in Hg'.
    injection Hg' as <-. eauto.
  - unfold startWatching. destruct (geolocation rt) as [g|]; [|exact Hrt].
    cbn. intros id [= <-]. eexists. split; [reflexivity|].
    cbn. apply elem_of_union_l, elem_of_singleton. reflexivity.
  - unfold stopWatching. destruct (watchId (service rt)) as [id|] eqn:Hid.
    + destruct (geolocation rt) as [g|]; [|exact Hrt]. intros id' [=].
    + exact Hrt.
  - unfold deliver. destruct (geolocation rt) as [g|] eqn:Hg; [|exact Hrt].
    destruct (decide (id ∈ watches g)); [|exact Hrt].
    pose proof (onPosition_watchId n0 n1 n2 coords (service rt)) as Hw.
    destruct (startWatching_onPosition n0 n1 n2 coords (service rt))
      as [sample svc]. cbn in Hw |- *.
    intros id' Hid. cbn in Hid. rewrite Hw in Hid.
    destruct (Hrt id' Hid) as (g' & Hg' & Hin). rewrite Hg in Hg'.
    injection Hg' as <-. eauto.
Qed.

(** X1.  Whatever a page does with the service after loading it, fetches,
    starts, stops and watch updates in any order, the watch the service
    holds is registered with the browser, and [stopWatching] returns: it
    never throws. *)
Theorem stopWatching_never_throws `{MathHost} :
  forall (calls : list call) (g : option Geolocation),
    let rt := session calls (boot g) in
    held_watch_registered rt
    /\ consistent rt = true
    /\ exists rt', stopWatching rt = Returns rt'.
Proof.
  intros calls g rt.
  assert (Hheld : held_watch_registered rt).
  { subst rt. unfold session.
    assert (Hboot : held_watch_registered (boot g)) by (intros id [=]).
    revert Hboot. generalize (boot g).
    induction calls as [|c calls IH]; intros rt0 Hrt0; cbn [foldl]; [exact Hrt0|].
    apply IH, after_held_watch_registered, Hrt0. }
  split; [exact Hheld|].
  unfold consistent, stopWatching.
  destruct (watchId (service rt)) as [id|] eqn:Hid.
  - destruct (Hheld id Hid) as (g' & -> & _). split; [reflexivity|eauto].
  - split; [reflexivity|eauto].
Qed.

(** X2.  Stopping a service that holds a watch throws the smoothing state
    away: the next fix, from a fetch or from a new watch, is answered with
    the provider's own speed, or 0 when that is null, 0 or NaN, and never
    with NaN or a speed derived from a fix before the stop. *)
Theorem stopWatching_restarts_smoothing `{MathHost} :
  forall (rt rt' : Runtime) (id : Z),
    watchId (service rt) = Some id ->
    stopWatching rt = Returns rt' ->
    forall (now0 now1 now2 : number) (coords : GeolocationCoordinates),
      let sample :=
        (getCurrentPosition_onSuccess now0 now1 now2 coords (service rt')).1 in
      data_speed sample = or_zero (speed coords)
      /\ isNaN (data_speed sample) = false
      /\ data_speed (startWatching_onPosition now0 now1 now2 coords (service rt')).1
         = or_zero (speed coords).
Proof.
  intros rt rt' id Hid Hstop now0 now1 now2 coords.
  unfold stopWatching in Hstop. rewrite Hid in Hstop.
  destruct (geolocation rt) as [g|]; [|discriminate].
  injection Hstop as <-. cbn.
  split; [reflexivity|]. split; [apply or_zero_not_NaN|reflexivity].
Qed.

(** The theorem on a service that has smoothed a fix under watch 1. *)
Lemma stopWatching_restarts_smoothing_witness :
  let fix1 := mkCoords 11.0168 76.9558 5 None in
  let fix2 := mkCoords 11.0045 76.9612 5 (Some 12.5) in
  let rt := {| service := mkService (Some 1%Z) (Some fix1) (Some 1000);
               geolocation := Some (mkGeolocation {[1%Z]} 2) |} in
  exists rt',
    stopWatching rt = Returns rt'
    /\ data_speed
         (getCurrentPosition_onSuccess (H := series_host)
            4000 4000 4000 fix2 (service rt')).1 = 12.5.
Proof.
  intros fix1 fix2 rt. eexists. split; [reflexivity|].
  exact (proj1 (stopWatching_restarts_smoothing (H := series_host)
                  rt _ 1%Z eq_refl eq_refl 4000 4000 4000 fix2)).
Defined.

(** X3.  A second [startWatching] without a stop in between overwrites the
    identifier of the first watch.  [stopWatching] then clears the second
    watch only: the first stays registered, a position delivered to it
    still produces a sample, and no later [stopWatching] reaches it. *)
Theorem startWatching_twice_leaves_a_watch `{MathHost} :
  forall (rt rt1 rt2 rt3 : Runtime),
    startWatching rt = Returns rt1 ->
    startWatching rt1 = Returns rt2 ->
    stopWatching rt2 = Returns rt3 ->
    exists first second g3,
      watchId (service rt1) = Some first
      /\ watchId (service rt2) = Some second
      /\ first <> second
      /\ watchId (service rt3) = None
      /\ geolocation rt3 = Some g3
      /\ (first ∈ watches g3)
      /\ (second ∉ watches g3)
      /\ (forall now0 now1 now2 coords,
             exists sample rt4,
               deliver first now0 now1 now2 coords rt3 = (Some sample, rt4))
      /\ stopWatching rt3 = Returns rt3.
Proof.
  intros rt rt1 rt2 rt3 H1 H2 H3.
  unfold startWatching in H1. destruct (geolocation rt) as [g|]; [|discriminate].
  cbn in H1. injection H1 as <-.
  cbn in H2. injection H2 as <-.
  cbn in H3. injection H3 as <-.
  exists (nextWatchId g). exists (nextWatchId g + 1)%Z. eexists.
  split; [reflexivity|]. split; [reflexivity|]. split; [lia|].
  split; [reflexivity|]. split; [reflexivity|].
  assert (Hin : nextWatchId g ∈
                ({[(nextWatchId g + 1)%Z]} ∪ ({[nextWatchId g]} ∪ watches g))
                ∖ {[(nextWatchId g + 1)%Z]}).
  { apply elem_of_difference. split.
    - apply elem_of_union_r, elem_of_union_l, elem_of_singleton. reflexivity.
    - rewrite elem_of_singleton. lia. }
  split; [exact Hin|]. split; [apply not_elem_of_cleared|]. split; [|reflexivity].
  intros now0 now1 now2 coords. unfold deliver. cbn.
  destruct (decide _) as [_|Hout]; [|destruct (Hout Hin)].
  eauto.
Qed.

(** The theorem on a freshly loaded page. *)
Lemma startWatching_twice_leaves_a_watch_witness :
  let rt := boot (Some (mkGeolocation ∅ 1)) in
  exists rt1 rt2 rt3 g3,
    startWatching rt = Returns rt1
    /\ startWatching rt1 = Returns rt2
    /\ stopWatching rt2 = Returns rt3
    /\ geolocation rt3 = Some g3
    /\ (1%Z ∈ watches g3).
Proof.
  intros rt. eexists _, _, _.
  destruct (startWatching_twice_leaves_a_watch (H := series_host)
              rt _ _ _ eq_refl eq_refl eq_refl)
    as (first & second & g3 & Hfirst & _ & _ & _ & Hg3 & Hin & _).
  exists g3. injection Hfirst as <-.
  split; [reflexivity|]. split; [reflexivity|]. split; [reflexivity|].
  split; [exact Hg3|exact Hin].
Defined.

End SamplerSessions.

(* ===================================================================== *)
(** ** Binary64 arithmetic *)
(* ===================================================================== *)

Section NumberFacts.
Import JS.
Local Open Scope float_scope.

Lemma SFcompare_refl_finite s m e :
  SFcompare (S754_finite s m e) (S754_finite s m e) = Some Eq.
Proof.
  cbn. rewrite Z.compare_refl. change (PosDef.Pos.compare_cont Eq m m) with (Pos.compare m m).
  rewrite Pos.compare_refl. destruct s; reflexivity.
Qed.

Lemma is_finite_class x :
  is_finite x = true ->
  (exists s, Prim2SF x = S754_zero s) \/ (exists s m e, Prim2SF x = S754_finite s m e).
Proof.
  unfold is_finite, is_nan, is_infinity.
  rewrite !FloatAxioms.eqb_spec, abs_spec.
  change (Prim2SF infinity) with (S754_infinity false).
  destruct (Prim2SF x) as [s|s| |s m e]; cbn; intros H.
  - eauto.
  - destruct s; discriminate.
  - discriminate.
  - eauto.
Qed.

Lemma number_sub_diag x : is_finite x = true -> x - x = 0.
Proof.
  intros Hx. apply Prim2SF_inj. rewrite FloatAxioms.sub_spec.
  destruct (is_finite_class x Hx) as [[s ->]|(s & m & e & ->)].
  - destruct s; reflexivity.
  - unfold SF64sub, SFsub. rewrite Z.sub_diag. reflexivity.
Qed.

Lemma number_mul_zero_r x : is_finite x = true -> x * 0 = 0 \/ x * 0 = -0.
Proof.
  intros Hx.
  assert (H : Prim2SF (x * 0) = S754_zero false \/ Prim2SF (x * 0) = S754_zero true).
  { rewrite FloatAxioms.mul_spec.
    destruct (is_finite_class x Hx) as [[s ->]|(s & m & e & ->)];
      destruct s; cbn; auto. }
  destruct H as [H|H]; [left|right]; apply Prim2SF_inj; rewrite H; reflexivity.
Qed.

Lemma binary_round_aux_opp p em s m e l :
  binary_round_aux p em (negb s) m e l = SFopp (binary_round_aux p em s m e l).
Proof.
  unfold binary_round_aux.
  destruct (shr_fexp p em m e l) as [mrs' e'].
  destruct (shr_fexp p em _ e' loc_Exact) as [mrs'' e''].
  destruct (shr_m mrs''); [reflexivity| |reflexivity].
  destruct (e'' <=? em - p)%Z; reflexivity.
Qed.

Lemma number_opp_involutive x : - - x = x.
Proof.
  apply Prim2SF_inj. rewrite !FloatAxioms.opp_spec.
  destruct (Prim2SF x) as [s|s| |s m e]; cbn; rewrite ?negb_involutive; reflexivity.
Qed.

Lemma number_mul_opp_l x y : (- x) * y = - (x * y).
Proof.
  apply Prim2SF_inj.
  rewrite FloatAxioms.opp_spec, !FloatAxioms.mul_spec, FloatAxioms.opp_spec.
  unfold SF64mul.
  destruct (Prim2SF x) as [sx|sx| |sx mx ex], (Prim2SF y) as [sy|sy| |sy my ey];
    cbn [SFopp SFmul]; try reflexivity;
    try (destruct sx, sy; reflexivity).
  replace (xorb (negb sx) sy) with (negb (xorb sx sy)) by (destruct sx, sy; reflexivity).
  apply binary_round_aux_opp.
Qed.

Lemma number_mul_comm x y : x * y = y * x.
Proof.
  apply Prim2SF_inj. rewrite !FloatAxioms.mul_spec. unfold SF64mul.
  destruct (Prim2SF x) as [sx|sx| |sx mx ex], (Prim2SF y) as [sy|sy| |sy my ey];
    cbn [SFmul]; try reflexivity; try (rewrite xorb_comm; reflexivity).
  rewrite xorb_comm, Pos.mul_comm, Z.add_comm. reflexivity.
Qed.

Lemma number_div_opp_l x y : (- x) / y = - (x / y).
Proof.
  apply Prim2SF_inj.
  rewrite FloatAxioms.opp_spec, !FloatAxioms.div_spec, FloatAxioms.opp_spec.
  unfold SF64div.
  destruct (Prim2SF x) as [sx|sx| |sx mx ex], (Prim2SF y) as [sy|sy| |sy my ey];
    cbn [SFopp SFdiv]; try reflexivity;
    try (destruct sx, sy; reflexivity).
  destruct (SFdiv_core_binary prec emax (Z.pos mx) ex (Z.pos my) ey) as [[mz ez] lz].
  replace (xorb (negb sx) sy) with (negb (xorb sx sy)) by (destruct sx, sy; reflexivity).
  apply binary_round_aux_opp.
Qed.

Lemma binary_round_opp p em s m e :
  binary_round p em (negb s) m e = SFopp (binary_round p em s m e).
Proof.
  unfold binary_round. destruct (shl_align m e _) as [mz ez].
  apply binary_round_aux_opp.
Qed.

Lemma SFsub_antisym a b :
  SF64sub b a = SFopp (SF64sub a b)
  \/ (SF64sub a b = S754_zero false /\ SF64sub b a = S754_zero false).
Proof.
  unfold SF64sub.
  destruct a as [sa|sa| |sa ma ea], b as [sb|sb| |sb mb eb]; cbn [SFsub SFopp];
    try (left; reflexivity);
    try (destruct sa, sb; cbn; auto; fail).
  rewrite (Z.min_comm eb ea).
  set (u := cond_Zopp sa (Z.pos (fst (shl_align ma ea (Z.min ea eb))))).
  set (v := cond_Zopp sb (Z.pos (fst (shl_align mb eb (Z.min ea eb))))).
  destruct (u - v)%Z as [|p|p] eqn:E.
  - right. replace (v - u)%Z with 0%Z by lia. split; reflexivity.
  - left. replace (v - u)%Z with (Z.neg p) by lia. cbn [binary_normalize].
    apply (binary_round_opp prec emax false).
  - left. replace (v - u)%Z with (Z.pos p) by lia. cbn [binary_normalize].
    rewrite (binary_round_opp prec emax false). 
    destruct (binary_round prec emax false p (Z.min ea eb)) as [s|s| |s m e];
      cbn; rewrite ?negb_involutive; reflexivity.
Qed.

Lemma number_sub_antisym x y : y - x = - (x - y) \/ (x - y = 0 /\ y - x = 0).
Proof.
  destruct (SFsub_antisym (Prim2SF x) (Prim2SF y)) as [H|[H1 H2]].
  - left. apply Prim2SF_inj.
    rewrite FloatAxioms.opp_spec, !FloatAxioms.sub_spec. exact H.
  - right. split; apply Prim2SF_inj; rewrite FloatAxioms.sub_spec; assumption.
Qed.

Ltac order_case :=
  unfold key_lt, order_key; split;
  [ first [discriminate | intros _; split; [discriminate | lia]]
  | intros [? ?]; first [reflexivity | congruence | lia] ].

Lemma SFltb_key a b :
  a <> S754_nan -> 
  SFltb a b = true <-> (b <> S754_nan /\ key_lt (order_key a) (order_key b)).
Proof.
  intros Ha. unfold SFltb.
  destruct a as [sa|sa| |sa ma ea]; try congruence;
    destruct b as [sb|sb| |sb mb eb]; cbn [SFcompare];
    try (destruct sa; order_case); try (destruct sb; order_case);
    try (destruct sa, sb; order_case).
  change (PosDef.Pos.compare_cont Eq ma mb) with (Pos.compare ma mb).
  destruct sa, sb; try order_case;
    destruct (Z.compare_spec ea eb), (Pos.compare_spec ma mb); cbn [CompOpp];
    order_case.
Qed.

Lemma isNaN_spec (x : number) : isNaN x = true <-> Prim2SF x = S754_nan.
Proof.
  unfold isNaN. rewrite FloatAxioms.eqb_spec. unfold SFeqb.
  destruct (Prim2SF x) as [s|s| |s m e].
  - cbn. split; discriminate.
  - destruct s; cbn; split; discriminate.
  - cbn. split; reflexivity.
  - rewrite SFcompare_refl_finite. cbn. split; discriminate.
Qed.

(** *** Signs *)








(** [NaN] goes through a product, and is not above 0. *)
Lemma number_mul_nan c t : isNaN t = true -> isNaN (c * t) = true.
Proof.
  rewrite !isNaN_spec, FloatAxioms.mul_spec. intros ->.
  destruct (Prim2SF c); reflexivity.
Qed.




End NumberFacts.

(* ===================================================================== *)
(** ** The great-circle distance, in binary64 *)
(* ===================================================================== *)

Section DistanceProperties.
Import JS LocationService.
Local Open Scope float_scope.

Lemma number_mul_opp_r x y : x * (- y) = - (x * y).
Proof.
  rewrite (number_mul_comm x (- y)), number_mul_opp_l, (number_mul_comm y x).
  reflexivity.
Qed.

Lemma number_square_opp x : (- x) * (- x) = x * x.
Proof. rewrite number_mul_opp_l, number_mul_opp_r. apply number_opp_involutive. Qed.

Lemma number_scaled_square_opp c x : c * (- x) * (- x) = c * x * x.
Proof.
  rewrite (number_mul_opp_r c x), number_mul_opp_l, number_mul_opp_r.
  apply number_opp_involutive.
Qed.

(** Half the angle of a difference changes sign with the difference. *)
Lemma half_angle_opp d : (- d) * Math_PI / 180 / 2 = - (d * Math_PI / 180 / 2).
Proof. rewrite number_mul_opp_l, !number_div_opp_l. reflexivity. Qed.

(** The haversine term, as [calculateDistance] computes it from the two
    half-angles. *)
Lemma calculateDistance_unfold `{MathHost} lat1 lon1 lat2 lon2 :
  calculateDistance lat1 lon1 lat2 lon2 =
  let u := (lat2 - lat1) * Math_PI / 180 / 2 in
  let v := (lon2 - lon1) * Math_PI / 180 / 2 in
  let a := Math_sin u * Math_sin u +
           Math_cos (lat1 * Math_PI / 180) * Math_cos (lat2 * Math_PI / 180) *
           Math_sin v * Math_sin v in
  6371e3 * (2 * Math_atan2 (Math_sqrt a) (Math_sqrt (1 - a))).
Proof. reflexivity. Qed.

(** X4.  The distance from a point to itself is exactly 0, not merely small:
    for finite coordinates, on a host whose sine maps 0 to 0, whose
    [atan2(0, 1)] is 0 (both fixed by the language standard) and whose
    cosine of the latitude has a finite square. *)
Theorem calculateDistance_same_point `{MathHost} :
  forall lat lon : number,
    is_finite lat = true ->
    is_finite lon = true ->
    Math_sin 0 = 0 ->
    Math_atan2 0 1 = 0 ->
    is_finite (Math_cos (lat * Math_PI / 180) * Math_cos (lat * Math_PI / 180))
    = true ->
    calculateDistance lat lon lat lon = 0.
Proof.
  intros lat lon Hlat Hlon Hsin Hatan Hcos.
  rewrite calculateDistance_unfold. cbv zeta.
  rewrite (number_sub_diag lat Hlat), (number_sub_diag lon Hlon).
  change (0 * Math_PI / 180 / 2) with 0. rewrite Hsin.
  set (c := Math_cos (lat * Math_PI / 180) * Math_cos (lat * Math_PI / 180)) in *.
  destruct (number_mul_zero_r c Hcos) as [-> | ->].
  - change (Math_sqrt (0 * 0 + 0 * 0)) with 0.
    change (Math_sqrt (1 - (0 * 0 + 0 * 0))) with 1.
    rewrite Hatan. reflexivity.
  - change (Math_sqrt (0 * 0 + -0 * 0)) with 0.
    change (Math_sqrt (1 - (0 * 0 + -0 * 0))) with 1.
    rewrite Hatan. reflexivity.
Qed.

(** The theorem at the first stop of the route, on the series host. *)
Lemma calculateDistance_same_point_witness :
  calculateDistance (H := series_host) 11.0168 76.9558 11.0168 76.9558 = 0.
Proof.
  apply (calculateDistance_same_point (H := series_host)); reflexivity.
Defined.

(** X5.  The distance is the same in both directions, bit for bit: for all
    coordinates, NaN and the infinities included, on a host whose sine is
    odd at the two half-angles of the pair. *)
Theorem calculateDistance_symmetric `{MathHost} :
  forall lat1 lon1 lat2 lon2 : number,
    let u := (lat2 - lat1) * Math_PI / 180 / 2 in
    let v := (lon2 - lon1) * Math_PI / 180 / 2 in
    Math_sin (- u) = - Math_sin u ->
    Math_sin (- v) = - Math_sin v ->
    calculateDistance lat2 lon2 lat1 lon1 = calculateDistance lat1 lon1 lat2 lon2.
Proof.
  intros lat1 lon1 lat2 lon2 u v Hu Hv.
  rewrite !calculateDistance_unfold. cbv zeta. fold u v.
  assert (Hlat : Math_sin ((lat1 - lat2) * Math_PI / 180 / 2)
                 * Math_sin ((lat1 - lat2) * Math_PI / 180 / 2)
                 = Math_sin u * Math_sin u).
  { destruct (number_sub_antisym lat2 lat1) as [-> | [E ->]].
    - rewrite half_angle_opp. fold u. rewrite Hu. apply number_square_opp.
    - subst u. rewrite E. reflexivity. }
  assert (Hlon : forall c,
             c * Math_sin ((lon1 - lon2) * Math_PI / 180 / 2)
               * Math_sin ((lon1 - lon2) * Math_PI / 180 / 2)
             = c * Math_sin v * Math_sin v).
  { intros c. destruct (number_sub_antisym lon2 lon1) as [-> | [E ->]].
    - rewrite half_angle_opp. fold v. rewrite Hv. apply number_scaled_square_opp.
    - subst v. rewrite E. reflexivity. }
  rewrite Hlat, Hlon.
  rewrite (number_mul_comm (Math_cos (lat2 * Math_PI / 180))
                           (Math_cos (lat1 * Math_PI / 180))).
  reflexivity.
Qed.

(** The theorem between the first two stops of the route. *)
Lemma calculateDistance_symmetric_witness :
  calculateDistance (H := series_host) 11.0045 76.9612 11.0168 76.9558
  = calculateDistance (H := series_host) 11.0168 76.9558 11.0045 76.9612.
Proof.
  apply (calculateDistance_symmetric (H := series_host)); reflexivity.
Defined.

(** *** The three laws of a distance *)



(** The unclamped term at a pair of finite coordinates, (8, 0) and its
    antipode (-8, 180).  On a host that returns the correctly rounded sine
    and cosine at the three angles of this pair, the term is the number next
    above 1, and the distance is [NaN] where [atan2] answers [NaN] to
    [NaN]. *)
Example calculateDistance_antipodes `{MathHost} :
  Math_sin (-0.13962634015954636) = -0.13917310096006544 ->
  Math_cos 0.13962634015954636 = 0.99026806874157036 ->
  Math_cos (-0.13962634015954636) = 0.99026806874157036 ->
  Math_sin 1.5707963267948966 = 1 ->
  isNaN (Math_atan2 1 nan) = true ->
  isNaN (calculateDistance 8 0 (-8) 180) = true.
Proof.
  intros Hs Hc Hc' Hq Hnan.
  rewrite calculateDistance_unfold. cbv zeta.
  change ((-8 - 8) * Math_PI / 180 / 2) with (-0.13962634015954636).
  change (8 * Math_PI / 180) with 0.13962634015954636.
  change (-8 * Math_PI / 180) with (-0.13962634015954636).
  change ((180 - 0) * Math_PI / 180 / 2) with 1.5707963267948966.
  rewrite Hs, Hc, Hc', Hq.
  change (Math_sqrt (-0.13917310096006544 * -0.13917310096006544 +
                     0.99026806874157036 * 0.99026806874157036 * 1 * 1))
    with 1.
  change (Math_sqrt (1 - (-0.13917310096006544 * -0.13917310096006544 +
                          0.99026806874157036 * 0.99026806874157036 * 1 * 1)))
    with nan.
  apply number_mul_nan, number_mul_nan, Hnan.
Qed.


End DistanceProperties.

(* ===================================================================== *)
(** ** The shared store over whole histories *)
(* ===================================================================== *)

Section StoreHistories.
Import JS Firestore FirebaseService.

(** A publish names the same fields whatever the sample. *)
Lemma toData_lookup_None (l1 l2 : LiveLocation) (f : string) :
  toData l1 !! f = None -> toData l2 !! f = None.
Proof.
  unfold toData. rewrite !lookup_insert_None. tauto.
Qed.

Lemma toData_shaped (l : LiveLocation) (old : document) :
  shaped (driverId l) (toData l ∪ old).
Proof.
  unfold shaped. split; [|split; [|split]].
  - apply lookup_union_Some_l. reflexivity.
  - exists (busNumber l). apply lookup_union_Some_l. reflexivity.
  - exists (timestamp l). apply lookup_union_Some_l. reflexivity.
  - exists (isActive l). apply lookup_union_Some_l. reflexivity.
Qed.

Lemma stopData_shaped (id : string) (now : number) (d : document) :
  shaped id d -> shaped id (stopData now ∪ d).
Proof.
  intros (Hid & [bus Hbus] & [t Ht] & _). unfold shaped.
  split; [|split; [|split]].
  - rewrite lookup_union_r by reflexivity. exact Hid.
  - exists bus. rewrite lookup_union_r by reflexivity. exact Hbus.
  - exists t. rewrite lookup_union_r by reflexivity. exact Ht.
  - exists false. apply lookup_union_Some_l. reflexivity.
Qed.

Lemma perform_shaped (db : collection) (op : operation) :
  (forall id d, db !! id = Some d -> shaped id d) ->
  forall id d, perform db op !! id = Some d -> shaped id d.
Proof.
  intros Hdb id d. destruct op as [l|id' now]; cbn [perform].
  - rewrite updateLiveLocation_lookup. case_decide as Hid; [|apply Hdb].
    subst id. intros [= <-]. apply toData_shaped.
  - unfold stopLiveLocation, updateDoc.
    destruct (db !! id') as [d'|] eqn:Hd'; [|apply Hdb].
    rewrite lookup_insert. case_decide as Hid; [|apply Hdb].
    subst id'. intros [= <-]. apply stopData_shaped, Hdb, Hd'.
Qed.

Lemma history_shaped_from (ops : list operation) (db : collection) :
  (forall id d, db !! id = Some d -> shaped id d) ->
  forall id d, history ops db !! id = Some d -> shaped id d.
Proof.
  unfold history. revert db.
  induction ops as [|op ops IH]; intros db Hdb; cbn [foldl]; [exact Hdb|].
  apply IH, perform_shaped, Hdb.
Qed.

Lemma empty_shaped :
  forall id d, (∅ : collection) !! id = Some d -> shaped id d.
Proof. intros id d. rewrite lookup_empty. discriminate. Qed.

(** X6.  In every store that publishes and deactivations build from the
    empty one, each record sits under the key that its own [driverId] field
    names, and its bus is a string, its timestamp a number and its flag a
    boolean: a deactivation never creates a record of another shape, and a
    publish never files a record under another driver's key. *)
Theorem history_records_shaped :
  forall (ops : list operation) (id : string) (d : document),
    history ops ∅ !! id = Some d -> shaped id d.
Proof.
  intros ops. apply history_shaped_from.
  intros id d. rewrite lookup_empty. discriminate.
Qed.

(** The theorem after a publish and a stop. *)
Lemma history_records_shaped_witness :
  let l := mkLiveLocation "D1" "R1" 11 76 42 1000 5 true in
  let db := history [Publish l; Deactivate "D1" 2000] ∅ in
  exists d, db !! "D1" = Some d /\ d !! "driverId" = Some (VString "D1").
Proof.
  intros l db.
  assert (Hd : db !! "D1" = Some (stopData 2000 ∪ (toData l ∪ ∅))) by reflexivity.
  eexists. split; [exact Hd|].
  exact (proj1 (history_records_shaped [Publish l; Deactivate "D1" 2000] _ _ Hd)).
Defined.

(** X7.  The last publish of a driver wins whole: after two publishes under
    one key the store is the one the second publish alone would have left,
    so nothing of the earlier sample survives. *)
Theorem updateLiveLocation_last_wins :
  forall (l1 l2 : LiveLocation) (db : collection),
    driverId l1 = driverId l2 ->
    updateLiveLocation l2 (updateLiveLocation l1 db) = updateLiveLocation l2 db.
Proof.
  intros l1 l2 db Hkey. unfold updateLiveLocation, setDoc_merge.
  rewrite Hkey, lookup_insert_eq, insert_insert_eq. cbn [default id]. f_equal.
  apply map_eq. intros f. rewrite !lookup_union.
  destruct (toData l2 !! f) as [v|] eqn:H2.
  - destruct (toData l1 !! f ∪ default ∅ (db !! driverId l2) !! f),
             (default ∅ (db !! driverId l2) !! f); reflexivity.
  - assert (H1 : toData l1 !! f = None) by exact (toData_lookup_None l2 l1 f H2).
    rewrite H1. destruct (default ∅ (db !! driverId l2) !! f); reflexivity.
Qed.

(** The theorem at two samples of driver D1. *)
Lemma updateLiveLocation_last_wins_witness :
  let l1 := mkLiveLocation "D1" "R1" 11 76 42 1000 5 true in
  let l2 := mkLiveLocation "D1" "R2" 12 77 30 4000 8 false in
  updateLiveLocation l2 (updateLiveLocation l1 ∅) = updateLiveLocation l2 ∅.
Proof.
  intros l1 l2. apply updateLiveLocation_last_wins. reflexivity.
Defined.

Lemma perform_lookup_ne (db : collection) (op : operation) (id : string) :
  id <> operation_key op -> perform db op !! id = db !! id.
Proof.
  intros Hne. destruct op as [l|id' now]; cbn [perform operation_key] in *.
  - rewrite updateLiveLocation_lookup. case_decide; [congruence|reflexivity].
  - unfold stopLiveLocation, updateDoc.
    destruct (db !! id') as [d'|]; [|reflexivity].
    apply lookup_insert_ne. congruence.
Qed.

(** What an operation stores under its own key depends on the record that
    was there, and on nothing else of the store. *)
Lemma perform_lookup_eq (db db' : collection) (op : operation) :
  db !! operation_key op = db' !! operation_key op ->
  perform db op !! operation_key op = perform db' op !! operation_key op.
Proof.
  intros Hsame. destruct op as [l|id' now]; cbn [perform operation_key] in *.
  - rewrite !updateLiveLocation_lookup. case_decide; [|congruence].
    rewrite Hsame. reflexivity.
  - unfold stopLiveLocation, updateDoc. rewrite <- Hsame.
    destruct (db !! id') as [d'|] eqn:Hd'; [|congruence].
    rewrite !lookup_insert_eq. reflexivity.
Qed.

(** X8.  Operations of different drivers do not interfere: a publish or a
    deactivation under one key and a publish or a deactivation under another
    leave the same store in either order. *)
Theorem perform_commutes :
  forall (op1 op2 : operation) (db : collection),
    operation_key op1 <> operation_key op2 ->
    perform (perform db op1) op2 = perform (perform db op2) op1.
Proof.
  intros op1 op2 db Hne. apply map_eq. intros id.
  destruct (decide (id = operation_key op1)) as [->|Hid1].
  - rewrite (perform_lookup_ne _ op2) by exact Hne.
    apply perform_lookup_eq. symmetry. apply perform_lookup_ne. exact Hne.
  - rewrite (perform_lookup_ne _ op1 id) by exact Hid1.
    destruct (decide (id = operation_key op2)) as [->|Hid2].
    + apply perform_lookup_eq. apply perform_lookup_ne. congruence.
    + rewrite !perform_lookup_ne by assumption. reflexivity.
Qed.

(** The theorem at a stop of D1 and a publish of D2. *)
Lemma perform_commutes_witness :
  let l1 := mkLiveLocation "D1" "R1" 11 76 42 1000 5 true in
  let l2 := mkLiveLocation "D2" "R1" 12 77 30 4000 8 true in
  let db := history [Publish l1] ∅ in
  perform (perform db (Deactivate "D1" 2000)) (Publish l2)
  = perform (perform db (Publish l2)) (Deactivate "D1" 2000).
Proof.
  intros l1 l2 db. apply perform_commutes. discriminate.
Defined.

(** X9.  A second stop of a stopped record returns as well and only moves
    the stop time: the store is the one a single stop at the later time
    would have left.  A publish that follows a stop writes the sample and
    the flag of its argument and keeps the stop time, so a record that is
    active again still carries [stoppedAt]. *)
Theorem stopLiveLocation_again :
  forall (id : string) (t1 t2 : number) (db db1 : collection),
    stopLiveLocation id t1 db = Returns db1 ->
    stopLiveLocation id t2 db1 = stopLiveLocation id t2 db
    /\ (exists db2, stopLiveLocation id t2 db1 = Returns db2)
    /\ forall l : LiveLocation,
         driverId l = id ->
         exists d,
           updateLiveLocation l db1 !! id = Some d
           /\ d !! "isActive" = Some (VBoolean (isActive l))
           /\ d !! "timestamp" = Some (VNumber (timestamp l))
           /\ d !! "stoppedAt" = Some (VNumber t1).
Proof.
  intros id t1 t2 db db1 Hstop.
  apply stopLiveLocation_Returns in Hstop as (d0 & Hd0 & ->).
  assert (Hsame : stopLiveLocation id t2 (<[id := stopData t1 ∪ d0]> db)
                  = stopLiveLocation id t2 db).
  { unfold stopLiveLocation, updateDoc. rewrite lookup_insert_eq, Hd0.
    rewrite insert_insert_eq. do 2 f_equal.
    apply map_eq. intros f. rewrite !lookup_union, !stopData_lookup.
    repeat case_decide; try reflexivity; destruct (d0 !! f); reflexivity. }
  split; [exact Hsame|]. split.
  - rewrite Hsame. eexists. apply stopLiveLocation_Returns. eauto.
  - intros l <-. eexists. rewrite updateLiveLocation_lookup.
    case_decide; [|congruence]. split; [reflexivity|].
    rewrite lookup_insert_eq. cbn [default id].
    split; [apply lookup_union_Some_l; reflexivity|].
    split; [apply lookup_union_Some_l; reflexivity|].
    rewrite lookup_union_r by reflexivity.
    apply lookup_union_Some_l. reflexivity.
Qed.

(** The theorem at a record stopped at 2000, stopped again at 3000 and
    published to at 4000. *)
Lemma stopLiveLocation_again_witness :
  let l := mkLiveLocation "D1" "R1" 11 76 42 1000 5 true in
  let l' := mkLiveLocation "D1" "R1" 12 77 30 4000 5 true in
  let db := history [Publish l] ∅ in
  exists db1 d,
    stopLiveLocation "D1" 2000 db = Returns db1
    /\ stopLiveLocation "D1" 3000 db1 = stopLiveLocation "D1" 3000 db
    /\ updateLiveLocation l' db1 !! "D1" = Some d
    /\ d !! "isActive" = Some (VBoolean true)
    /\ d !! "stoppedAt" = Some (VNumber 2000).
Proof.
  intros l l' db.
  assert (Hstop : stopLiveLocation "D1" 2000 db
                  = Returns (<["D1" := stopData 2000 ∪ (toData l ∪ ∅)]> db))
    by reflexivity.
  destruct (stopLiveLocation_again "D1" 2000 3000 db _ Hstop)
    as (Hsame & _ & Hrestart).
  destruct (Hrestart l' eq_refl) as (d & Hd & Hact & _ & Hstopped).
  eexists _, d. split; [exact Hstop|]. split; [exact Hsame|].
  split; [exact Hd|]. split; [exact Hact|exact Hstopped].
Defined.

(** *** One active record per driver *)

Lemma last_under_snoc (id : string) (ops : list operation) (op : operation) :
  last_under id (ops ++ [op]) =
  if decide (operation_key op = id) then Some op else last_under id ops.
Proof.
  unfold last_under. rewrite List.filter_app. cbn [List.filter].
  case_decide as Hk.
  - rewrite bool_decide_eq_true_2 by exact Hk. apply last_snoc.
  - rewrite bool_decide_eq_false_2 by exact Hk. rewrite app_nil_r. reflexivity.
Qed.

Lemma history_snoc (ops : list operation) (op : operation) (db : collection) :
  history (ops ++ [op]) db = perform (history ops db) op.
Proof. unfold history. rewrite foldl_app. reflexivity. Qed.

(** Whether a key holds an active record is decided by the last operation
    under that key: an active publish, and nothing else, leaves one. *)
Lemma history_active_count (ops : list operation) (id : string) :
  length (activeRecords id (history ops ∅)) =
  match last_under id ops with
  | Some (Publish l) => if isActive l then 1 else 0
  | _ => 0
  end.
Proof.
  induction ops as [|op ops IH] using rev_ind.
  - rewrite activeRecords_count. reflexivity.
  - rewrite history_snoc, last_under_snoc. case_decide as Hk.
    + subst id. rewrite activeRecords_count.
      destruct op as [l|id now]; cbn [perform operation_key].
      * rewrite updateLiveLocation_lookup. case_decide; [|congruence].
        unfold active.
        destruct (isActive l) eqn:Hact.
        -- rewrite (proj2 (where_eq_VBoolean "isActive" true _)); [reflexivity|].
           apply lookup_union_Some_l. rewrite toData_isActive, Hact. reflexivity.
        -- destruct (where_eq _ _ _) eqn:Hw; [|reflexivity].
           apply where_eq_VBoolean in Hw.
           rewrite (lookup_union_Some_l _ _ _ _ (toData_isActive l)), Hact in Hw.
           discriminate.
      * unfold stopLiveLocation, updateDoc.
        destruct (history ops ∅ !! id) as [d|] eqn:Hd.
        -- rewrite lookup_insert_eq. unfold active.
           destruct (where_eq _ _ _) eqn:Hw; [|reflexivity].
           apply where_eq_VBoolean in Hw.
           rewrite (lookup_union_Some_l (stopData now) d "isActive" (VBoolean false))
             in Hw by reflexivity.
           discriminate.
        -- rewrite Hd. reflexivity.
    + rewrite <- IH, !activeRecords_count.
      rewrite perform_lookup_ne by congruence. reflexivity.
Qed.

(** C1, as the code has it.  Records are stored under the driver's
    identifier, not under the bus, and the invariant holds per driver.  In
    every store that publishes and deactivations build from the empty one,
    the active records that name a driver are the ones under that driver's
    key, and there is at most one: exactly one when the last operation under
    the key is a publish of an active record, none when it is a deactivation
    or a publish of an inactive record, or when there was no operation under
    the key.  A publish puts the merge of its argument and the record already
    there under the argument's key and adds no key but that one.  For a bus,
    the active records are one per driver that reports it: two of them never
    name the same driver. *)
Theorem one_active_record_per_key :
  forall (ops : list operation) (id : string),
    let db := history ops ∅ in
    length (activeRecordsOf id db) <= 1
    /\ activeRecordsOf id db = activeRecords id db
    /\ length (activeRecordsOf id db)
       = match last_under id ops with
         | Some (Publish l) => if isActive l then 1 else 0
         | _ => 0
         end
    /\ (forall (l : LiveLocation) (now : collection),
          updateLiveLocation l now !! driverId l
          = Some (toData l ∪ default ∅ (now !! driverId l))
          /\ dom (updateLiveLocation l now) = {[driverId l]} ∪ dom now
          /\ length (activeRecords (driverId l) (updateLiveLocation l now))
             = if isActive l then 1 else 0)
    /\ (forall bus x y,
          In x (liveLocationQuery bus db) ->
          In y (liveLocationQuery bus db) ->
          x.2 !! "driverId" = y.2 !! "driverId" ->
          x = y).
Proof.
  intros ops id db.
  assert (Hshaped : forall k d, db !! k = Some d -> shaped k d)
    by apply history_shaped_from, empty_shaped.
  assert (Hof : activeRecordsOf id db = activeRecords id db).
  { unfold activeRecordsOf, activeRecords. apply filter_ext_in.
    intros [k d] Hin. apply list_elem_of_In, elem_of_map_to_list in Hin.
    destruct (Hshaped k d Hin) as (Hid & _). cbn [fst snd]. f_equal.
    unfold where_eq. rewrite Hid. reflexivity. }
  split; [rewrite Hof; apply activeRecords_length|].
  split; [exact Hof|].
  split; [rewrite Hof; apply history_active_count|].
  split.
  - intros l now.
    assert (Hstored : updateLiveLocation l now !! driverId l
                      = Some (toData l ∪ default ∅ (now !! driverId l))).
    { rewrite updateLiveLocation_lookup. case_decide; [reflexivity|congruence]. }
    split; [exact Hstored|]. split.
    + unfold updateLiveLocation, setDoc_merge. apply dom_insert_L.
    + rewrite activeRecords_count, Hstored. unfold active.
      destruct (isActive l) eqn:Hact.
      * rewrite (proj2 (where_eq_VBoolean "isActive" true _)); [reflexivity|].
        apply lookup_union_Some_l. rewrite toData_isActive, Hact. reflexivity.
      * destruct (where_eq _ _ _) eqn:Hw; [|reflexivity].
        apply where_eq_VBoolean in Hw.
        rewrite (lookup_union_Some_l _ _ _ _ (toData_isActive l)), Hact in Hw.
        discriminate.
  - intros bus [k1 d1] [k2 d2] [H1 _]%liveLocationQuery_In [H2 _]%liveLocationQuery_In.
    cbn [fst snd] in *. intros Hsame.
    destruct (Hshaped k1 d1 H1) as (Hid1 & _).
    destruct (Hshaped k2 d2 H2) as (Hid2 & _).
    assert (k1 = k2) by congruence. subst k2. congruence.
Qed.

(** The theorem at driver D1, who publishes, stops and publishes again: one
    active record after the second publish, none after the stop. *)
Lemma one_active_record_per_key_witness :
  let first := mkLiveLocation "D1" "R1" 11 76 42 1000 5 true in
  let again := mkLiveLocation "D1" "R1" 12 77 30 4000 5 true in
  length (activeRecordsOf "D1"
            (history [Publish first; Deactivate "D1" 2000; Publish again] ∅)) = 1
  /\ length (activeRecordsOf "D1"
               (history [Publish first; Deactivate "D1" 2000] ∅)) = 0.
Proof.
  intros first again. split.
  - exact (proj1 (proj2 (proj2 (one_active_record_per_key
             [Publish first; Deactivate "D1" 2000; Publish again] "D1")))).
  - exact (proj1 (proj2 (proj2 (one_active_record_per_key
             [Publish first; Deactivate "D1" 2000] "D1")))).
Defined.

(** C1, as it is worded, fails.  After two drivers have each published an
    active record for bus R1, the store holds two active records of that
    bus, one under each driver's key, and the query a listener of the bus
    runs selects both. *)
Lemma two_active_records_on_one_route :
  let first := mkLiveLocation "D1" "R1" 11 76 42 1000 5 true in
  let second := mkLiveLocation "D2" "R1" 12 77 30 900 5 true in
  let db := history [Publish first; Publish second] ∅ in
  exists d1 d2,
    db !! "D1" = Some d1 /\ db !! "D2" = Some d2
    /\ activeFor "R1" d1 /\ activeFor "R1" d2
    /\ ~ length (liveLocationQuery "R1" db) <= 1.
Proof.
  cbv zeta. eexists _, _. split; [reflexivity|]. split; [reflexivity|].
  split; [split; reflexivity|]. split; [split; reflexivity|].
  vm_compute. intros H. apply Nat.leb_le in H. discriminate.
Qed.

End StoreHistories.

(* ===================================================================== *)
(** ** Ordered queries: the latest record and the fleet view *)
(* ===================================================================== *)

Section OrderedQueries.
Import JS Firestore FirebaseService.
Local Open Scope float_scope.

(** *** The order of numbers in a query *)

Lemma order_key_nan (f : spec_float) :
  f <> S754_nan -> key_lt (order_key S754_nan) (order_key f).
Proof.
  intros Hf. destruct f as [s|[]| |[] m e]; cbn; try lia. congruence.
Qed.

Lemma order_key_not_below_nan (f : spec_float) :
  ~ key_lt (order_key f) (order_key S754_nan).
Proof. destruct f as [s|[]| |[] m e]; cbn; lia. Qed.

(** The order of two stored numbers is the order of their keys. *)
Lemma value_ltb_numbers (x y : number) :
  value_ltb (VNumber x) (VNumber y) = true <->
  key_lt (order_key (Prim2SF x)) (order_key (Prim2SF y)).
Proof.
  cbn [value_ltb]. destruct (isNaN x) eqn:Hx.
  - apply isNaN_spec in Hx. rewrite Hx, negb_true_iff.
    destruct (isNaN y) eqn:Hy.
    + apply isNaN_spec in Hy. rewrite Hy. split; [discriminate|cbn; lia].
    + split; [intros _|reflexivity]. apply order_key_nan.
      intros Hnan. apply isNaN_spec in Hnan. congruence.
  - assert (Hx' : Prim2SF x <> S754_nan).
    { intros Hnan. apply isNaN_spec in Hnan. congruence. }
    rewrite FloatAxioms.ltb_spec, (SFltb_key _ _ Hx'). split; [tauto|].
    intros Hlt. split; [|exact Hlt]. intros Hy. rewrite Hy in Hlt.
    exact (order_key_not_below_nan _ Hlt).
Qed.

Lemma key_lt_cotransitive (a b c : Z * Z * Z) :
  key_lt a c -> key_lt a b \/ key_lt b c.
Proof.
  destruct a as [[a1 a2] a3], b as [[b1 b2] b3], c as [[c1 c2] c3].
  unfold key_lt. lia.
Qed.

Lemma key_lt_asymmetric (a b : Z * Z * Z) : key_lt a b -> ~ key_lt b a.
Proof.
  destruct a as [[a1 a2] a3], b as [[b1 b2] b3]. unfold key_lt. lia.
Qed.

Lemma value_ltb_numbers_false (x y : number) :
  value_ltb (VNumber x) (VNumber y) = false <->
  ~ key_lt (order_key (Prim2SF x)) (order_key (Prim2SF y)).
Proof.
  rewrite <- value_ltb_numbers. destruct (value_ltb _ _); split; congruence.
Qed.

(** No number comes before itself; of two numbers at most one comes before
    the other; and a number that does not come before [b] cannot come
    before anything [b] does not come before. *)
Lemma value_ltb_irreflexive (x : number) :
  value_ltb (VNumber x) (VNumber x) = false.
Proof.
  apply value_ltb_numbers_false. intros Hlt.
  exact (key_lt_asymmetric _ _ Hlt Hlt).
Qed.

Lemma value_ltb_asymmetric (x y : number) :
  value_ltb (VNumber x) (VNumber y) = true ->
  value_ltb (VNumber y) (VNumber x) = false.
Proof.
  rewrite value_ltb_numbers, value_ltb_numbers_false.
  apply key_lt_asymmetric.
Qed.

Lemma value_ltb_chain (x b y : number) :
  value_ltb (VNumber x) (VNumber b) = false ->
  value_ltb (VNumber b) (VNumber y) = false ->
  value_ltb (VNumber x) (VNumber y) = false.
Proof.
  rewrite !value_ltb_numbers_false. intros Hxb Hby Hxy.
  destruct (key_lt_cotransitive _ (order_key (Prim2SF b)) _ Hxy); tauto.
Qed.

(** *** The first document of a descending query *)

(** [before_desc] on two documents whose field is a number. *)
Lemma before_desc_numbers (f : string) (x y : string * document) tx ty :
  x.2 !! f = Some (VNumber tx) ->
  y.2 !! f = Some (VNumber ty) ->
  (before_desc f x y = true -> value_ltb (VNumber tx) (VNumber ty) = false)
  /\ (before_desc f y x = false -> value_ltb (VNumber tx) (VNumber ty) = false).
Proof.
  intros Hx Hy. unfold before_desc. rewrite Hx, Hy. split.
  - intros [Hlt|[Hnlt _]%andb_true_iff]%orb_true_iff.
    + apply value_ltb_asymmetric, Hlt.
    + apply negb_true_iff, Hnlt.
  - intros [Hnlt _]%orb_false_iff. exact Hnlt.
Qed.

Lemma first_desc_latest (f : string) (docs : list (string * document)) x :
  (forall y v, In y docs -> y.2 !! f = Some v -> exists t, v = VNumber t) ->
  first_desc f docs = Some x ->
  forall y tx ty,
    In y docs ->
    x.2 !! f = Some (VNumber tx) ->
    y.2 !! f = Some (VNumber ty) ->
    value_ltb (VNumber tx) (VNumber ty) = false.
Proof.
  revert x. induction docs as [|y0 docs IH]; intros x Hnum Hfirst y tx ty Hy Hx Hty;
    [destruct Hy|].
  assert (Hnum' : forall y v, In y docs -> y.2 !! f = Some v -> exists t, v = VNumber t).
  { intros y' v Hin. apply Hnum. right. exact Hin. }
  unfold first_desc in Hfirst. cbn [List.filter] in Hfirst.
  case_bool_decide as Hy0; cbn [foldr] in Hfirst;
    fold (first_desc f docs) in Hfirst.
  - destruct Hy0 as [v0 Hv0].
    destruct (Hnum y0 v0 (or_introl eq_refl) Hv0) as [t0 ->].
    destruct (first_desc f docs) as [b|] eqn:Hb.
    + destruct (first_desc_elem f docs b Hb) as [Hbin [vb Hvb]].
      destruct (Hnum' b vb Hbin Hvb) as [tb ->].
      destruct (before_desc f y0 b) eqn:Hbefore; injection Hfirst as <-.
      * rewrite Hv0 in Hx. injection Hx as <-.
        destruct Hy as [<-|Hy].
        -- rewrite Hv0 in Hty. injection Hty as <-. apply value_ltb_irreflexive.
        -- apply (value_ltb_chain _ tb).
           ++ exact (proj1 (before_desc_numbers f y0 b _ _ Hv0 Hvb) Hbefore).
           ++ exact (IH b Hnum' eq_refl y tb ty Hy Hvb Hty).
      * destruct Hy as [<-|Hy].
        -- rewrite Hvb in Hx. injection Hx as <-.
           rewrite Hv0 in Hty. injection Hty as <-.
           exact (proj2 (before_desc_numbers f b y0 _ _ Hvb Hv0) Hbefore).
        -- exact (IH b Hnum' eq_refl y tx ty Hy Hx Hty).
    + injection Hfirst as <-. rewrite Hv0 in Hx. injection Hx as <-.
      destruct Hy as [<-|Hy].
      * rewrite Hv0 in Hty. injection Hty as <-. apply value_ltb_irreflexive.
      * rewrite (proj1 (first_desc_None f docs) Hb y Hy) in Hty. discriminate.
  - destruct Hy as [<-|Hy].
    + destruct Hy0. eauto.
    + exact (IH x Hnum' Hfirst y tx ty Hy Hx Hty).
Qed.

Lemma delivered_is_latest (db : collection) (bus : string) (d : document) :
  (forall id d, db !! id = Some d -> shaped id d) ->
  subscribeToLiveLocation bus db = Some d ->
  exists t,
    d !! "timestamp" = Some (VNumber t)
    /\ forall id d' t',
         db !! id = Some d' ->
         activeFor bus d' ->
         d' !! "timestamp" = Some (VNumber t') ->
         value_ltb (VNumber t) (VNumber t') = false.
Proof.
  intros Hshaped. unfold subscribeToLiveLocation.
  destruct (first_desc _ _) as [x|] eqn:Hfirst; [|discriminate].
  intros [= <-].
  destruct (first_desc_elem _ _ _ Hfirst) as [Hx _].
  apply liveLocationQuery_In in Hx as [Hx _].
  destruct (Hshaped _ _ Hx) as (_ & _ & [t Ht] & _).
  exists t. split; [exact Ht|]. intros id d' t' Hd' Hact Ht'.
  assert (Hnum : forall y v, In y (liveLocationQuery bus db) ->
                   y.2 !! "timestamp" = Some v -> exists ty, v = VNumber ty).
  { intros y v Hy Hv. apply liveLocationQuery_In in Hy as [Hy _].
    destruct (Hshaped _ _ Hy) as (_ & _ & [ty Hty] & _).
    rewrite Hty in Hv. injection Hv as <-. eauto. }
  apply (first_desc_latest _ _ _ Hnum Hfirst (id, d') t t');
    [|exact Ht|exact Ht'].
  apply liveLocationQuery_In. split; assumption.
Qed.

(** X10.  What a listener of a bus receives is the latest the store has for
    that bus: in every store built from the empty one, no active record of
    the bus carries a timestamp that comes after the delivered one. *)
Theorem subscribeToLiveLocation_latest :
  forall (ops : list operation) (bus : string) (d : document),
    let db := history ops ∅ in
    subscribeToLiveLocation bus db = Some d ->
    exists t,
      d !! "timestamp" = Some (VNumber t)
      /\ forall id d' t',
           db !! id = Some d' ->
           activeFor bus d' ->
           d' !! "timestamp" = Some (VNumber t') ->
           value_ltb (VNumber t) (VNumber t') = false.
Proof.
  intros ops bus d db Hsub. apply delivered_is_latest; [|exact Hsub].
  apply history_shaped_from, empty_shaped.
Qed.

(** The theorem with two drivers on bus R1: the listener receives the record
    stamped 1000, and the one stamped 900 does not come after it. *)
Lemma subscribeToLiveLocation_latest_witness :
  let first := mkLiveLocation "D1" "R1" 11 76 42 1000 5 true in
  let second := mkLiveLocation "D2" "R1" 12 77 30 900 5 true in
  let db := history [Publish first; Publish second] ∅ in
  exists d,
    subscribeToLiveLocation "R1" db = Some d
    /\ d !! "timestamp" = Some (VNumber 1000)
    /\ value_ltb (VNumber 1000) (VNumber 900) = false.
Proof.
  intros first second db.
  assert (Hd : subscribeToLiveLocation "R1" db
               = Some (toData first ∪ ∅)) by (vm_compute; reflexivity).
  destruct (subscribeToLiveLocation_latest [Publish first; Publish second]
              "R1" _ Hd) as (t & Ht & Hlatest).
  assert (Et : t = 1000) by (vm_compute in Ht; congruence). subst t.
  eexists. split; [exact Hd|]. split; [exact Ht|].
  apply (Hlatest "D2" (toData second ∪ ∅) 900); [reflexivity| |reflexivity].
  split; reflexivity.
Defined.

(** X11.  A publish of an active record makes its bus visible at once: the
    listener of that bus receives a record, an active one of that bus, and
    its timestamp is not earlier than the published one. *)
Theorem updateLiveLocation_visible :
  forall (ops : list operation) (l : LiveLocation),
    isActive l = true ->
    exists d t,
      subscribeToLiveLocation (busNumber l)
        (updateLiveLocation l (history ops ∅)) = Some d
      /\ activeFor (busNumber l) d
      /\ d !! "timestamp" = Some (VNumber t)
      /\ value_ltb (VNumber t) (VNumber (timestamp l)) = false.
Proof.
  intros ops l Hact.
  change (updateLiveLocation l (history ops ∅))
    with (perform (history ops ∅) (Publish l)).
  assert (Hhist : perform (history ops ∅) (Publish l)
                  = history (ops ++ [Publish l]) ∅).
  { unfold history. rewrite foldl_app. reflexivity. }
  rewrite Hhist.
  set (db := history (ops ++ [Publish l]) ∅).
  assert (Hts : timestamped db) by apply history_timestamped, empty_timestamped.
  assert (Hstored : db !! driverId l
                    = Some (toData l ∪ default ∅ (history ops ∅ !! driverId l))).
  { subst db. rewrite <- Hhist. cbn [perform].
    rewrite updateLiveLocation_lookup. case_decide; [reflexivity|congruence]. }
  assert (Hfor : activeFor (busNumber l)
                   (toData l ∪ default ∅ (history ops ∅ !! driverId l))).
  { split; apply lookup_union_Some_l; [reflexivity|].
    rewrite toData_isActive, Hact. reflexivity. }
  destruct (subscribeToLiveLocation (busNumber l) db) as [d|] eqn:Hsub.
  - destruct (delivered_is_latest db _ _
                (history_shaped_from _ _ empty_shaped) Hsub)
      as (t & Ht & Hlatest).
    exists d, t. split; [reflexivity|].
    split; [exact (proj2 (subscribeToLiveLocation_Some _ _ _ Hsub))|].
    split; [exact Ht|].
    apply (Hlatest _ _ _ Hstored Hfor).
    apply lookup_union_Some_l. reflexivity.
  - destruct (proj1 (subscribeToLiveLocation_None _ _ Hts) Hsub _ _ Hstored Hfor).
Qed.

(** The theorem at a publish that follows a stop. *)
Lemma updateLiveLocation_visible_witness :
  let l := mkLiveLocation "D1" "R1" 11 76 42 1000 5 true in
  let l' := mkLiveLocation "D1" "R1" 12 77 30 4000 5 true in
  exists d,
    subscribeToLiveLocation "R1"
      (updateLiveLocation l' (history [Publish l; Deactivate "D1" 2000] ∅))
    = Some d
    /\ activeFor "R1" d.
Proof.
  intros l l'.
  destruct (updateLiveLocation_visible [Publish l; Deactivate "D1" 2000] l' eq_refl)
    as (d & t & Hsub & Hfor & _).
  exists d. split; [exact Hsub|exact Hfor].
Defined.

(** *** Ordered results *)

Lemma insert_by_In before (x y : string * document) l :
  In y (insert_by before x l) <-> y = x \/ In y l.
Proof.
  induction l as [|z l IH]; cbn.
  - split; [intros [<-|[]]; auto|intros [->|[]]; auto].
  - destruct (before x z); cbn; [split; intros [<-|H]; auto|].
    rewrite IH. split; [intros [<-|[->|H]]|intros [->|[<-|H]]]; auto.
Qed.

Lemma ordered_by_In before (f : string) (docs : list (string * document)) x :
  In x (ordered_by before f docs) <-> In x docs /\ is_Some (x.2 !! f).
Proof.
  unfold ordered_by. induction docs as [|y docs IH]; cbn.
  - split; [intros []|intros [[] _]].
  - case_bool_decide as Hy; cbn.
    + rewrite insert_by_In, IH. split.
      * intros [->|[Hin Hx]]; auto.
      * intros [[<-|Hin] Hx]; auto.
    + rewrite IH. split; [intros [Hin Hx]; auto|].
      intros [[<-|Hin] Hx]; [destruct (Hy Hx)|auto].
Qed.

Lemma insert_by_Sorted before (x : string * document) l :
  Sorted (fun a b => before a b = true \/ before b a = false) l ->
  Sorted (fun a b => before a b = true \/ before b a = false) (insert_by before x l).
Proof.
  induction l as [|y l IH]; cbn; intros Hs.
  - repeat constructor.
  - destruct (before x y) eqn:Hxy.
    + constructor; [exact Hs|]. constructor. left. exact Hxy.
    + apply Sorted_inv in Hs as [Hs Hhd]. constructor; [apply IH, Hs|].
      destruct l as [|z l]; cbn.
      * constructor. right. exact Hxy.
      * destruct (before x z); constructor.
        -- right. exact Hxy.
        -- exact (HdRel_inv Hhd).
Qed.

Lemma ordered_by_Sorted before (f : string) (docs : list (string * document)) :
  Sorted (fun a b => before a b = true \/ before b a = false)
         (ordered_by before f docs).
Proof.
  unfold ordered_by. induction (List.filter _ docs) as [|y l IH]; cbn.
  - constructor.
  - apply insert_by_Sorted, IH.
Qed.

Lemma Sorted_weaken {A} (R R' : A -> A -> Prop) (l : list A) :
  (forall a b, R a b -> R' a b) -> Sorted R l -> Sorted R' l.
Proof.
  intros Himpl. induction 1 as [|a l Hs IH Hhd]; constructor; [exact IH|].
  destruct Hhd; constructor. auto.
Qed.

Lemma fleetQuery_In (db : collection) x :
  In x (fleetQuery db) <->
  db !! x.1 = Some x.2
  /\ x.2 !! "isActive" = Some (VBoolean true)
  /\ is_Some (x.2 !! "timestamp").
Proof.
  unfold fleetQuery.
  rewrite ordered_by_In, filter_In, where_eq_VBoolean.
  rewrite <- list_elem_of_In, elem_of_map_to_list'. tauto.
Qed.

(** Not coming later is transitive between records that carry numbers. *)
Lemma latest_first_trans (x y z : string * document) :
  latest_first x y -> latest_first y z -> latest_first x z.
Proof.
  intros (tx & ty & Hx & Hy & Hxy) (ty' & tz & Hy' & Hz & Hyz).
  rewrite Hy in Hy'. injection Hy' as <-.
  exists tx, tz. split; [exact Hx|]. split; [exact Hz|].
  exact (value_ltb_chain _ _ _ Hxy Hyz).
Qed.

(** In a list ordered by a transitive relation every element is related to
    all that follow it, not only to the next. *)
Lemma Sorted_all_pairs {A} (R : A -> A -> Prop) (l : list A) :
  (forall a b c, R a b -> R b c -> R a c) ->
  Sorted R l -> StronglySorted R l.
Proof.
  intros Htrans. induction 1 as [|a l Hs IH Hhd]; constructor; [exact IH|].
  destruct Hhd as [|b l Hab]; [constructor|].
  apply StronglySorted_inv in IH as [_ Hall].
  constructor; [exact Hab|].
  rewrite Forall_forall in Hall |- *. intros c Hc.
  exact (Htrans _ _ _ Hab (Hall c Hc)).
Qed.

Lemma Sorted_strengthen {A} (R R' : A -> A -> Prop) (l : list A) :
  (forall a b, In a l -> In b l -> R a b -> R' a b) -> Sorted R l -> Sorted R' l.
Proof.
  intros Himpl Hs. induction Hs as [|a l Hs IH Hhd]; constructor.
  - apply IH. intros x y Hx Hy. apply Himpl; right; assumption.
  - destruct Hhd as [|b l Hab]; constructor.
    apply Himpl; [left; reflexivity|right; left; reflexivity|exact Hab].
Qed.

Lemma StronglySorted_lookup {A} (R : A -> A -> Prop) (l : list A) i j x y :
  StronglySorted R l -> i < j -> l !! i = Some x -> l !! j = Some y -> R x y.
Proof.
  intros Hs. revert i j. induction Hs as [|a l Hs IH Hall]; intros i j Hij Hi Hj.
  - rewrite lookup_nil in Hi. discriminate.
  - destruct j as [|j]; [lia|]. cbn in Hj. destruct i as [|i].
    + injection Hi as <-. rewrite Forall_forall in Hall. apply Hall.
      eapply list_elem_of_lookup_2, Hj.
    + cbn in Hi. apply (IH i j); [lia|assumption|assumption].
Qed.

(** Where every stored timestamp is a number, each record of the fleet view
    is not later than all the records listed before it. *)
Lemma fleetQuery_all_pairs (db : collection) :
  (forall id d v, db !! id = Some d -> d !! "timestamp" = Some v ->
                  exists t, v = VNumber t) ->
  StronglySorted latest_first (fleetQuery db).
Proof.
  intros Hnum. apply Sorted_all_pairs; [exact latest_first_trans|].
  eapply Sorted_strengthen;
    [|exact (ordered_by_Sorted (before_desc "timestamp") "timestamp" _)].
  fold (fleetQuery db).
  intros a b (Ha & _ & [va Hva])%fleetQuery_In (Hb & _ & [vb Hvb])%fleetQuery_In Hab.
  destruct (Hnum _ _ _ Ha Hva) as [ta ->], (Hnum _ _ _ Hb Hvb) as [tb ->].
  exists ta, tb. split; [exact Hva|]. split; [exact Hvb|].
  destruct (before_desc_numbers "timestamp" a b ta tb Hva Hvb) as [H1 H2].
  destruct Hab; auto.
Qed.

(** In a store built from the empty one every timestamp is a number. *)
Lemma history_timestamps_numbers (ops : list operation) :
  forall id d v, history ops ∅ !! id = Some d -> d !! "timestamp" = Some v ->
                 exists t, v = VNumber t.
Proof.
  intros id d v Hd Hv.
  destruct (history_shaped_from ops ∅ empty_shaped id d Hd) as (_ & _ & [t Ht] & _).
  exists t. congruence.
Qed.

(** X12.  The fleet view lists exactly the stored records that are active
    (and carry a timestamp), each under its key; it never lists a record
    whose flag is false; and along the list timestamps never go up.  Where
    every stored timestamp is a number, as in every store that publishes and
    deactivations build, this holds between any two entries, near or far:
    both carry a number, and the one listed later does not come after the
    one listed earlier. *)
Theorem fleetQuery_active_latest_first :
  forall db : collection,
    (forall x, In x (fleetQuery db) <->
               db !! x.1 = Some x.2
               /\ x.2 !! "isActive" = Some (VBoolean true)
               /\ is_Some (x.2 !! "timestamp"))
    /\ (forall d, In d (subscribeToAllLiveLocations db) ->
                  d !! "isActive" = Some (VBoolean true))
    /\ Sorted not_later (fleetQuery db)
    /\ ((forall id d v, db !! id = Some d -> d !! "timestamp" = Some v ->
                        exists t, v = VNumber t) ->
        forall i j x y,
          i < j ->
          fleetQuery db !! i = Some x ->
          fleetQuery db !! j = Some y ->
          latest_first x y).
Proof.
  intros db. split; [apply fleetQuery_In|]. split; [|split].
  - intros d [x [<- Hx]]%in_map_iff. apply fleetQuery_In in Hx as (_ & Hact & _).
    exact Hact.
  - unfold fleetQuery.
    eapply Sorted_weaken;
      [|exact (ordered_by_Sorted (before_desc "timestamp") "timestamp" _)].
    intros a b Hab tx ty Hx Hy.
    destruct (before_desc_numbers "timestamp" a b tx ty Hx Hy) as [H1 H2].
    destruct Hab; auto.
  - intros Hnum i j x y. apply StronglySorted_lookup, fleetQuery_all_pairs, Hnum.
Qed.

(** A fleet of three that published in the order D1, D2, D3 with timestamps
    900, 1000 and 950: the view lists D2, D3, D1. *)
Example fleetQuery_of_three :
  let first := mkLiveLocation "D1" "R1" 11 76 42 900 5 true in
  let second := mkLiveLocation "D2" "R2" 12 77 30 1000 5 true in
  let third := mkLiveLocation "D3" "R3" 12 77 30 950 5 true in
  map fst (fleetQuery (history [Publish first; Publish second; Publish third] ∅))
  = ["D2"; "D3"; "D1"].
Proof. vm_compute. reflexivity. Qed.

(** The theorem at that fleet: the last entry of the view, that of D1, is
    not later than the first, that of D2. *)
Lemma fleetQuery_active_latest_first_witness :
  let first := mkLiveLocation "D1" "R1" 11 76 42 900 5 true in
  let second := mkLiveLocation "D2" "R2" 12 77 30 1000 5 true in
  let third := mkLiveLocation "D3" "R3" 12 77 30 950 5 true in
  let db := history [Publish first; Publish second; Publish third] ∅ in
  exists x y,
    fleetQuery db !! 0%nat = Some x /\ fleetQuery db !! 2%nat = Some y
    /\ x.1 = "D2" /\ y.1 = "D1"
    /\ latest_first x y.
Proof.
  intros first second third db.
  pose proof fleetQuery_of_three as Hkeys. cbv zeta in Hkeys.
  fold first second third in Hkeys. fold db in Hkeys.
  destruct (fleetQuery_active_latest_first db) as (_ & _ & _ & Hpairs).
  specialize (Hpairs (history_timestamps_numbers _) 0%nat 2%nat).
  destruct (fleetQuery db) as [|x [|z [|y [|w rest]]]]; try discriminate Hkeys.
  injection Hkeys as Hx Hz Hy. exists x, y.
  split; [reflexivity|]. split; [reflexivity|]. split; [exact Hx|].
  split; [exact Hy|]. apply Hpairs; [lia|reflexivity|reflexivity].
Defined.

(** X13.  How the fleet view changes.  After a deactivation that returned,
    the record of that key is gone from the view and every other entry is
    as before.  After a publish, the entries of other keys are as before,
    and the key of the publish has an entry exactly when the published
    record is active, the merged record. *)
Theorem fleetQuery_after :
  forall (db : collection),
    (forall id now db',
        stopLiveLocation id now db = Returns db' ->
        forall x, In x (fleetQuery db') <-> x.1 <> id /\ In x (fleetQuery db))
    /\ (forall l x,
          In x (fleetQuery (updateLiveLocation l db)) <->
          (x.1 <> driverId l /\ In x (fleetQuery db))
          \/ (isActive l = true
              /\ x = (driverId l, toData l ∪ default ∅ (db !! driverId l)))).
Proof.
  intros db. split.
  - intros id now db' (d0 & Hd0 & ->)%stopLiveLocation_Returns x.
    rewrite !fleetQuery_In, lookup_insert. case_decide as Hid.
    + split; [|intros [Hne _]; congruence].
      intros ([= Hx] & Hact & _). rewrite <- Hx in Hact.
      rewrite (lookup_union_Some_l (stopData now) d0 "isActive" (VBoolean false))
        in Hact by reflexivity.
      discriminate.
    + split; [intros H; split; [congruence|exact H]|intros [_ H]; exact H].
  - intros l x. rewrite !fleetQuery_In, updateLiveLocation_lookup.
    case_decide as Hid.
    + split.
      * intros ([= Hx] & Hact & _). right. rewrite <- Hx in Hact.
        rewrite (lookup_union_Some_l _ _ _ _ (toData_isActive l)) in Hact.
        injection Hact as Hact. split; [exact Hact|].
        destruct x as [k d]. cbn in *. congruence.
      * intros [[Hne _]|[Hact ->]]; [congruence|]. cbn.
        split; [reflexivity|]. split.
        -- apply lookup_union_Some_l. rewrite toData_isActive, Hact. reflexivity.
        -- apply lookup_union_is_Some. left. rewrite toData_timestamp. eauto.
    + split.
      * intros H. left. split; [congruence|exact H].
      * intros [[_ H]|[_ ->]]; [exact H|]. cbn in Hid. congruence.
Qed.

(** The theorem at a fleet of two, of which D1 stops. *)
Lemma fleetQuery_after_witness :
  let first := mkLiveLocation "D1" "R1" 11 76 42 1000 5 true in
  let second := mkLiveLocation "D2" "R2" 12 77 30 900 5 true in
  let db := history [Publish first; Publish second] ∅ in
  exists db',
    stopLiveLocation "D1" 2000 db = Returns db'
    /\ In ("D2", toData second ∪ ∅) (fleetQuery db')
    /\ ~ In ("D1", toData first ∪ ∅) (fleetQuery db').
Proof.
  intros first second db. eexists. split; [reflexivity|].
  destruct (fleetQuery_after db) as [Hstop _].
  specialize (Hstop "D1" 2000%float _ eq_refl). split.
  - apply Hstop. split; [discriminate|].
    apply fleetQuery_In. repeat split. eexists. reflexivity.
  - intros Hin. apply Hstop in Hin as [Hne _]. apply Hne. reflexivity.
Defined.

End OrderedQueries.

(* ===================================================================== *)
(** ** The drivers collection *)
(* ===================================================================== *)

Section DriverRecords.
Import JS Firestore FirebaseService.

(** *** The order of document identifiers *)

Lemma ascii_compare_refl (a : Ascii.ascii) : Ascii.compare a a = Eq.
Proof. unfold Ascii.compare. apply N.compare_refl. Qed.

Lemma string_compare_refl (s : string) : String.compare s s = Eq.
Proof.
  induction s as [|a s IH]; cbn; [reflexivity|].
  rewrite ascii_compare_refl. exact IH.
Qed.

Lemma string_compare_trans (s1 s2 s3 : string) :
  String.compare s1 s2 = Lt -> String.compare s2 s3 = Lt ->
  String.compare s1 s3 = Lt.
Proof.
  revert s2 s3. induction s1 as [|a s1 IH]; intros [|b s2] [|c s3]; cbn;
    try discriminate; try reflexivity.
  destruct (Ascii.compare a b) eqn:Eab, (Ascii.compare b c) eqn:Ebc;
    try discriminate.
  - apply Ascii.compare_eq_iff in Eab, Ebc. subst.
    rewrite ascii_compare_refl. apply IH.
  - apply Ascii.compare_eq_iff in Eab. subst. rewrite Ebc. reflexivity.
  - apply Ascii.compare_eq_iff in Ebc. subst. rewrite Eab. reflexivity.
  - unfold Ascii.compare in *. rewrite N.compare_lt_iff in Eab, Ebc.
    assert (Hac : (Ascii.N_of_ascii a ?= Ascii.N_of_ascii c)%N = Lt)
      by (apply N.compare_lt_iff; lia).
    rewrite Hac. reflexivity.
Qed.

Lemma string_ltb_irreflexive (s : string) : String.ltb s s = false.
Proof. unfold String.ltb. rewrite string_compare_refl. reflexivity. Qed.

Lemma string_ltb_transitive (s1 s2 s3 : string) :
  String.ltb s1 s2 = true -> String.ltb s2 s3 = true -> String.ltb s1 s3 = true.
Proof.
  unfold String.ltb. intros H12 H23.
  destruct (String.compare s1 s2) eqn:E12; try discriminate.
  destruct (String.compare s2 s3) eqn:E23; try discriminate.
  rewrite (string_compare_trans _ _ _ E12 E23). reflexivity.
Qed.

Lemma string_ltb_total (s1 s2 : string) :
  String.ltb s1 s2 = false -> s1 <> s2 -> String.ltb s2 s1 = true.
Proof.
  unfold String.ltb. intros H12 Hne. rewrite String.compare_antisym.
  destruct (String.compare s1 s2) eqn:E; try discriminate; [|reflexivity].
  apply String.compare_eq_iff in E. congruence.
Qed.

(** *** The first document by identifier *)

Lemma first_by_id_cons (x : string * document) docs :
  first_by_id (x :: docs) =
  match first_by_id docs with
  | Some y => if String.ltb x.1 y.1 then Some x else Some y
  | None => Some x
  end.
Proof. reflexivity. Qed.

Lemma first_by_id_None (docs : list (string * document)) :
  first_by_id docs = None <-> docs = [].
Proof.
  destruct docs as [|x docs]; [split; reflexivity|].
  rewrite first_by_id_cons. split; [|discriminate].
  destruct (first_by_id docs) as [y|]; [destruct (String.ltb x.1 y.1)|];
    discriminate.
Qed.

Lemma first_by_id_least (docs : list (string * document)) x :
  first_by_id docs = Some x ->
  In x docs /\ forall y, In y docs -> String.ltb y.1 x.1 = false.
Proof.
  revert x. induction docs as [|z docs IH]; [discriminate|].
  intros x. rewrite first_by_id_cons. cbn [In].
  destruct (first_by_id docs) as [b|] eqn:Hb.
  - destruct (IH b eq_refl) as [Hin Hleast].
    destruct (String.ltb z.1 b.1) eqn:Hzb; intros [= <-].
    + split; [left; reflexivity|]. intros y [<-|Hy].
      * apply string_ltb_irreflexive.
      * destruct (String.ltb y.1 z.1) eqn:Hyz; [|reflexivity].
        rewrite <- (Hleast y Hy). symmetry.
        exact (string_ltb_transitive _ _ _ Hyz Hzb).
    + split; [right; exact Hin|]. intros y [<-|Hy]; [exact Hzb|exact (Hleast y Hy)].
  - apply first_by_id_None in Hb. subst docs. intros [= <-].
    split; [left; reflexivity|]. intros y [<-|[]]. apply string_ltb_irreflexive.
Qed.

(** *** Reading, creating and deleting *)

Lemma withId_lookup (id : string) (data : document) (f : string) :
  withId id data !! f =
  match data !! f with
  | Some v => Some v
  | None => if decide (f = "id") then Some (VString id) else None
  end.
Proof.
  unfold withId. rewrite lookup_union. destruct (data !! f) as [v|].
  - destruct ({["id" := VString id]} !! f); reflexivity.
  - rewrite (left_id None _). case_decide as Hf.
    + subst f. apply lookup_singleton_eq.
    + apply lookup_singleton_ne. congruence.
Qed.

(** X14.  A driver that is created can be read back under the identifier
    [createDriver] returns, with the fields it was created with and with
    [id] set to that identifier, unless the stored fields include an [id] of
    their own, which then takes its place; a driver that is deleted reads as
    [null] afterwards, whether or not it existed, and neither operation
    changes what any other identifier reads as. *)
Theorem getDriver_after_create_and_delete :
  forall (newId : string) (driver : document) (db : collection),
    let created := createDriver newId driver db in
    created.1 = newId
    /\ getDriver newId created.2 = Some (withId newId driver)
    /\ (forall f v, driver !! f = Some v -> withId newId driver !! f = Some v)
    /\ (driver !! "id" = None -> withId newId driver !! "id" = Some (VString newId))
    /\ getDriver newId (deleteDriver newId created.2) = None
    /\ getDriver newId (deleteDriver newId db) = None
    /\ (forall id, id <> newId ->
          getDriver id created.2 = getDriver id db
          /\ getDriver id (deleteDriver newId db) = getDriver id db).
Proof.
  intros newId driver db created. subst created.
  unfold createDriver, addDoc, deleteDriver, deleteDoc, getDriver, getDoc. cbn.
  split; [reflexivity|]. split; [rewrite lookup_insert_eq; reflexivity|].
  split; [intros f v Hf; rewrite withId_lookup, Hf; reflexivity|].
  split; [intros Hid; rewrite withId_lookup, Hid; reflexivity|].
  split; [rewrite lookup_delete_eq; reflexivity|].
  split; [rewrite lookup_delete_eq; reflexivity|].
  intros id Hne.
  rewrite lookup_insert_ne, lookup_delete_ne by congruence. split; reflexivity.
Qed.

(** The theorem at a driver whose stored fields include an [id]. *)
Lemma getDriver_after_create_and_delete_witness :
  let driver : document :=
    <["name" := VString "Asha"]> (<["id" := VString "legacy-7"]> ∅) in
  ("D1" <> "new" /\ driver !! "name" = Some (VString "Asha"))
  /\ getDriver "D1" (createDriver "new" driver ∅).2 = getDriver "D1" ∅
  /\ exists d, getDriver "new" (createDriver "new" driver ∅).2 = Some d
               /\ d !! "name" = Some (VString "Asha")
               /\ d !! "id" = Some (VString "legacy-7").
Proof.
  intros driver.
  destruct (getDriver_after_create_and_delete "new" driver ∅)
    as (_ & Hget & Hfields & _ & _ & _ & Hother).
  split; [split; [discriminate|reflexivity]|].
  split; [apply Hother; discriminate|].
  eexists. split; [exact Hget|].
  split; apply Hfields; reflexivity.
Defined.

(** X15.  [updateDriverStatus] never creates a driver: for an identifier
    without a document it is rejected with [not-found] and the collection
    stays as it is.  For a driver that exists it returns, and the driver
    then reads with the new [isOnline], with [lastUpdated] the current time
    and with every other field as before; other drivers read as before. *)
Theorem updateDriverStatus_frame :
  forall (id : string) (isOnline : bool) (now : number) (db : collection),
    (db !! id = None ->
     updateDriverStatus id isOnline now db = Throws "not-found"
     /\ perform_driver db (UpdateDriverStatus id isOnline now) = db)
    /\ (forall data, db !! id = Some data ->
          exists db' d,
            updateDriverStatus id isOnline now db = Returns db'
            /\ getDriver id db' = Some d
            /\ d !! "isOnline" = Some (VBoolean isOnline)
            /\ d !! "lastUpdated" = Some (VNumber now)
            /\ (forall f, f <> "isOnline" -> f <> "lastUpdated" ->
                  d !! f = withId id data !! f)
            /\ (forall id', id' <> id -> getDriver id' db' = getDriver id' db)).
Proof.
  intros id isOnline now db. unfold updateDriverStatus, updateDoc. split.
  - intros Hnone. cbn [perform_driver]. unfold updateDriverStatus, updateDoc.
    rewrite Hnone. split; reflexivity.
  - intros data Hdata. rewrite Hdata. eexists _, _.
    split; [reflexivity|]. unfold getDriver, getDoc.
    rewrite lookup_insert_eq. split; [reflexivity|].
    split.
    { rewrite withId_lookup.
      rewrite (lookup_union_Some_l (statusData isOnline now) data
                 "isOnline" (VBoolean isOnline)) by reflexivity.
      reflexivity. }
    split.
    { rewrite withId_lookup.
      rewrite (lookup_union_Some_l (statusData isOnline now) data
                 "lastUpdated" (VNumber now)) by reflexivity.
      reflexivity. }
    split.
    + intros f Hf1 Hf2. rewrite !withId_lookup.
      assert (Hf : (statusData isOnline now ∪ data) !! f = data !! f).
      { apply lookup_union_r. unfold statusData.
        rewrite !lookup_insert_ne by congruence. apply lookup_empty. }
      rewrite Hf. reflexivity.
    + intros id' Hne. rewrite lookup_insert_ne by congruence. reflexivity.
Qed.

(** The theorem at a driver that goes online. *)
Lemma updateDriverStatus_frame_witness :
  let driver : document :=
    <["name" := VString "Asha"]> (<["isOnline" := VBoolean false]> ∅) in
  let db := (createDriver "D1" driver ∅).2 in
  ((∅ : collection) !! "D1" = None /\ db !! "D1" = Some driver)
  /\ updateDriverStatus "D1" true 5000 ∅ = Throws "not-found"
  /\ exists db' d,
       updateDriverStatus "D1" true 5000 db = Returns db'
       /\ getDriver "D1" db' = Some d
       /\ d !! "isOnline" = Some (VBoolean true)
       /\ d !! "name" = Some (VString "Asha").
Proof.
  intros driver db.
  assert (Hd : db !! "D1" = Some driver) by reflexivity.
  split; [split; [reflexivity|exact Hd]|]. split.
  - exact (proj1 (proj1 (updateDriverStatus_frame "D1" true 5000 ∅) eq_refl)).
  - destruct (proj2 (updateDriverStatus_frame "D1" true 5000 db) driver Hd)
      as (db' & d & Hret & Hget & Honline & _ & Hframe & _).
    exists db', d. split; [exact Hret|]. split; [exact Hget|].
    split; [exact Honline|].
    rewrite (Hframe "name") by discriminate. reflexivity.
Defined.

(** *** Looking drivers up *)

Lemma string_ltb_asymmetric (s1 s2 : string) :
  String.ltb s1 s2 = true -> String.ltb s2 s1 = false.
Proof.
  unfold String.ltb. rewrite (String.compare_antisym s1 s2).
  destruct (String.compare s2 s1); cbn; congruence.
Qed.

(** X16.  [getDriverByEmail] answers [null] exactly when no stored driver
    has that email.  Otherwise it answers with a stored driver that has it,
    read as [getDriver] reads it; where several drivers share the email, it
    is the one with the least identifier. *)
Theorem getDriverByEmail_first_match :
  forall (email : string) (db : collection),
    (getDriverByEmail email db = None <->
     forall id data, db !! id = Some data ->
                     data !! "email" <> Some (VString email))
    /\ (forall d, getDriverByEmail email db = Some d ->
          exists id data,
            db !! id = Some data
            /\ data !! "email" = Some (VString email)
            /\ getDriver id db = Some d
            /\ forall id' data',
                 db !! id' = Some data' ->
                 data' !! "email" = Some (VString email) ->
                 id' = id \/ String.ltb id id' = true).
Proof.
  intros email db. unfold getDriverByEmail.
  set (matches := List.filter _ (map_to_list db)).
  assert (Hin : forall x, In x matches <->
                  db !! x.1 = Some x.2 /\ x.2 !! "email" = Some (VString email)).
  { intros x. subst matches.
    rewrite filter_In, where_eq_VString, <- list_elem_of_In, elem_of_map_to_list'.
    reflexivity. }
  destruct (first_by_id matches) as [x|] eqn:Hfirst.
  - destruct (first_by_id_least _ _ Hfirst) as [Hx Hleast].
    apply Hin in Hx as [Hx Hemail]. split.
    + split; [discriminate|]. intros Hnone. destruct (Hnone _ _ Hx Hemail).
    + intros d [= <-]. exists x.1, x.2. split; [exact Hx|].
      split; [exact Hemail|]. split.
      * unfold getDriver, getDoc. rewrite Hx. reflexivity.
      * intros id' data' Hd' He'.
        destruct (decide (id' = x.1)) as [|Hne]; [left; assumption|right].
        apply string_ltb_total; [|exact Hne].
        apply (Hleast (id', data')), Hin. split; assumption.
  - apply first_by_id_None in Hfirst. split; [|intros d; discriminate].
    split; [|reflexivity]. intros _ id data Hd He.
    assert (Hmem : In (id, data) matches) by (apply Hin; split; assumption).
    rewrite Hfirst in Hmem. destruct Hmem.
Qed.

(** The theorem at two drivers that share an email. *)
Lemma getDriverByEmail_first_match_witness :
  let a : document := <["email" := VString "x@bus.in"]> (<["name" := VString "Ravi"]> ∅) in
  let b : document := <["email" := VString "x@bus.in"]> (<["name" := VString "Asha"]> ∅) in
  let db := (createDriver "D1" a (createDriver "D2" b ∅).2).2 in
  getDriverByEmail "x@bus.in" db = getDriver "D1" db
  /\ getDriverByEmail "nobody@bus.in" db = None.
Proof.
  intros a b db.
  destruct (getDriverByEmail_first_match "x@bus.in" db) as [_ Hsome].
  destruct (getDriverByEmail_first_match "nobody@bus.in" db) as [Hnone _].
  split.
  - destruct (getDriverByEmail "x@bus.in" db) as [d|] eqn:Hd;
      [|vm_compute in Hd; discriminate].
    destruct (Hsome d eq_refl) as (id & data & Hdata & _ & Hget & Hleast).
    destruct (Hleast "D1" a eq_refl eq_refl) as [<-|Hlt]; [symmetry; exact Hget|].
    destruct (Hleast "D2" b eq_refl eq_refl) as [<-|Hlt2];
      [vm_compute in Hlt; discriminate|].
    assert (Hid : id = "D1" \/ id = "D2").
    { unfold db, createDriver, addDoc in Hdata. cbn [snd] in Hdata.
      rewrite lookup_insert in Hdata. case_decide; [auto|].
      rewrite lookup_insert in Hdata. case_decide; [auto|].
      rewrite lookup_empty in Hdata. discriminate. }
    destruct Hid as [->| ->]; vm_compute in Hlt; discriminate.
  - apply Hnone. intros id data Hdata.
    unfold db, createDriver, addDoc in Hdata. cbn [snd] in Hdata.
    rewrite lookup_insert in Hdata. case_decide; [injection Hdata as <-; discriminate|].
    rewrite lookup_insert in Hdata. case_decide; [injection Hdata as <-; discriminate|].
    rewrite lookup_empty in Hdata. discriminate.
Defined.

Lemma Sorted_map {A B} (R : A -> A -> Prop) (R' : B -> B -> Prop)
    (g : A -> B) (l : list A) :
  (forall a b, R a b -> R' (g a) (g b)) -> Sorted R l -> Sorted R' (map g l).
Proof.
  intros Himpl. induction 1 as [|a l Hs IH Hhd]; cbn; constructor; [exact IH|].
  destruct Hhd; cbn; constructor. auto.
Qed.

(** Not coming before is transitive on strings, and with it the order of
    drivers by name. *)
Lemma string_ltb_chain (n1 n2 n3 : string) :
  String.ltb n2 n1 = false -> String.ltb n3 n2 = false -> String.ltb n3 n1 = false.
Proof.
  intros H21 H32. destruct (String.ltb n3 n1) eqn:H31; [|reflexivity].
  destruct (decide (n2 = n3)) as [->|Hne]; [congruence|].
  pose proof (string_ltb_total n3 n2 H32 ltac:(congruence)) as H23.
  rewrite (string_ltb_transitive _ _ _ H23 H31) in H21. discriminate.
Qed.

Lemma by_name_trans (x y z : document) :
  by_name x y -> by_name y z -> by_name x z.
Proof.
  intros (nx & ny & Hx & Hy & Hxy) (ny' & nz & Hy' & Hz & Hyz).
  rewrite Hy in Hy'. injection Hy' as <-.
  exists nx, nz. split; [exact Hx|]. split; [exact Hz|].
  exact (string_ltb_chain _ _ _ Hxy Hyz).
Qed.

(** Where every stored name is a string, each listed driver's name does not
    come before the names of all the drivers listed before it. *)
Lemma getAllDrivers_all_pairs (db : collection) :
  (forall id d v, db !! id = Some d -> d !! "name" = Some v ->
                  exists n, v = VString n) ->
  StronglySorted by_name (getAllDrivers db).
Proof.
  intros Hstr. unfold getAllDrivers.
  set (docs := ordered_by (before_asc "name") "name" (map_to_list db)).
  assert (Hdocs : forall a, In a docs ->
            exists n, a.2 !! "name" = Some (VString n)
                      /\ withId a.1 a.2 !! "name" = Some (VString n)).
  { intros a [Ha [va Hva]]%ordered_by_In.
    apply list_elem_of_In, elem_of_map_to_list' in Ha.
    destruct (Hstr _ _ _ Ha Hva) as [n ->]. exists n. split; [exact Hva|].
    rewrite withId_lookup, Hva. reflexivity. }
  apply Sorted_all_pairs; [exact by_name_trans|].
  eapply Sorted_map with
    (R := fun a b => In a docs /\ In b docs
                     /\ (before_asc "name" a b = true \/ before_asc "name" b a = false)).
  - intros a b (Ha & Hb & Hab).
    destruct (Hdocs a Ha) as (na & Hna & Hna'), (Hdocs b Hb) as (nb & Hnb & Hnb').
    exists na, nb. split; [exact Hna'|]. split; [exact Hnb'|].
    unfold before_asc in Hab. rewrite Hna, Hnb in Hab. cbn [value_ltb] in Hab.
    destruct Hab as [Hab|Hab].
    + apply orb_true_iff in Hab as [Hlt|[Hlt _]%andb_true_iff].
      * apply string_ltb_asymmetric, Hlt.
      * apply negb_true_iff, Hlt.
    + apply orb_false_iff in Hab as [Hlt _]. exact Hlt.
  - eapply Sorted_strengthen; [|exact (ordered_by_Sorted _ _ _)].
    fold docs. intros a b Ha Hb Hab. auto.
Qed.

(** X17.  [getAllDrivers] lists the stored drivers that have a [name], each
    read as [getDriver] reads it, with names that never go down along the
    list.  A driver stored without a [name] is not listed at all, although
    [getDriver] finds it.  Where every stored name is a string, the order
    holds between any two entries, near or far: both carry a string, and the
    name listed later does not come before the name listed earlier. *)
Theorem getAllDrivers_by_name :
  forall db : collection,
    (forall d, In d (getAllDrivers db) <->
               exists id data,
                 db !! id = Some data
                 /\ is_Some (data !! "name")
                 /\ getDriver id db = Some d)
    /\ (forall id data,
          db !! id = Some data -> data !! "name" = None ->
          is_Some (getDriver id db)
          /\ forall d, In d (getAllDrivers db) -> d !! "name" <> None)
    /\ Sorted names_ascend (getAllDrivers db)
    /\ ((forall id d v, db !! id = Some d -> d !! "name" = Some v ->
                        exists n, v = VString n) ->
        forall i j d d',
          i < j ->
          getAllDrivers db !! i = Some d ->
          getAllDrivers db !! j = Some d' ->
          by_name d d').
Proof.
  intros db.
  assert (Hlist : forall d, In d (getAllDrivers db) <->
                    exists id data, db !! id = Some data
                      /\ is_Some (data !! "name")
                      /\ getDriver id db = Some d).
  { intros d. unfold getAllDrivers. rewrite in_map_iff. split.
    - intros (x & <- & Hx). apply ordered_by_In in Hx as [Hx Hname].
      apply list_elem_of_In, elem_of_map_to_list' in Hx.
      exists x.1, x.2. split; [exact Hx|]. split; [exact Hname|].
      unfold getDriver, getDoc. rewrite Hx. reflexivity.
    - intros (id & data & Hd & Hname & Hget).
      unfold getDriver, getDoc in Hget. rewrite Hd in Hget. injection Hget as <-.
      exists (id, data). split; [reflexivity|].
      apply ordered_by_In. split; [|exact Hname].
      apply list_elem_of_In, elem_of_map_to_list'. exact Hd. }
  split; [exact Hlist|]. split; [|split].
  - intros id data Hd Hname. split.
    + unfold getDriver, getDoc. rewrite Hd. eauto.
    + intros d (id' & data' & Hd' & [n Hn] & Hget)%Hlist.
      unfold getDriver, getDoc in Hget. rewrite Hd' in Hget.
      injection Hget as <-. rewrite withId_lookup, Hn. discriminate.
  - unfold getAllDrivers.
    eapply Sorted_map;
      [|exact (ordered_by_Sorted (before_asc "name") "name" (map_to_list db))].
    intros a b Hab n n'. rewrite !withId_lookup.
    destruct (a.2 !! "name") as [va|] eqn:Ha; [|case_decide; discriminate].
    destruct (b.2 !! "name") as [vb|] eqn:Hb; [|case_decide; discriminate].
    intros [= ->] [= ->]. unfold before_asc in Hab. rewrite Ha, Hb in Hab.
    cbn [value_ltb] in Hab. destruct Hab as [Hab|Hab].
    + apply orb_true_iff in Hab as [Hlt|[Hlt _]%andb_true_iff].
      * apply string_ltb_asymmetric, Hlt.
      * apply negb_true_iff, Hlt.
    + apply orb_false_iff in Hab as [Hlt _]. exact Hlt.
  - intros Hstr i j d d'. apply StronglySorted_lookup, getAllDrivers_all_pairs, Hstr.
Qed.

(** Three named drivers and an unnamed one: the list is Asha, Mani, Ravi,
    whatever the identifiers. *)
Example getAllDrivers_of_four :
  let asha : document := <["name" := VString "Asha"]> ∅ in
  let ravi : document := <["name" := VString "Ravi"]> ∅ in
  let mani : document := <["name" := VString "Mani"]> ∅ in
  let unnamed : document := <["email" := VString "x@bus.in"]> ∅ in
  getAllDrivers (createDriver "D4" mani
                  (createDriver "D3" ravi
                    (createDriver "D1" asha (createDriver "D2" unnamed ∅).2).2).2).2
  = [withId "D1" asha; withId "D4" mani; withId "D3" ravi].
Proof. vm_compute. reflexivity. Qed.

(** The theorem at that collection: the unnamed driver is found by
    [getDriver] and not listed, and the last name of the list does not come
    before the first. *)
Lemma getAllDrivers_by_name_witness :
  let asha : document := <["name" := VString "Asha"]> ∅ in
  let ravi : document := <["name" := VString "Ravi"]> ∅ in
  let mani : document := <["name" := VString "Mani"]> ∅ in
  let unnamed : document := <["email" := VString "x@bus.in"]> ∅ in
  let db := (createDriver "D4" mani
              (createDriver "D3" ravi
                (createDriver "D1" asha (createDriver "D2" unnamed ∅).2).2).2).2 in
  (db !! "D2" = Some unnamed /\ unnamed !! "name" = None)
  /\ is_Some (getDriver "D2" db)
  /\ getAllDrivers db = [withId "D1" asha; withId "D4" mani; withId "D3" ravi]
  /\ by_name (withId "D1" asha) (withId "D3" ravi).
Proof.
  intros asha ravi mani unnamed db.
  assert (Hd : db !! "D2" = Some unnamed) by reflexivity.
  pose proof getAllDrivers_of_four as Hlist. cbv zeta in Hlist.
  fold asha ravi mani unnamed in Hlist. fold db in Hlist.
  split; [split; [exact Hd|reflexivity]|].
  destruct (getAllDrivers_by_name db) as (_ & Hunnamed & _ & Hpairs).
  split; [exact (proj1 (Hunnamed "D2" unnamed Hd eq_refl))|].
  split; [exact Hlist|].
  apply Hpairs with (i := 0) (j := 2); [|lia|rewrite Hlist; reflexivity..].
  assert (Hnamed : forall n v,
            (<["name" := VString n]> ∅ : document) !! "name" = Some v ->
            exists n', v = VString n').
  { intros n v. rewrite lookup_insert_eq. intros [= <-]. eauto. }
  assert (Hall : map_Forall
                   (fun (_ : string) (d : document) =>
                      forall v, d !! "name" = Some v -> exists n, v = VString n)
                   db).
  { unfold db, createDriver, addDoc. cbn [snd].
    repeat apply map_Forall_insert_2; try apply Hnamed; [|apply map_Forall_empty].
    intros v. unfold unnamed. rewrite lookup_insert_ne by discriminate.
    rewrite lookup_empty. discriminate. }
  intros id d v Hid. exact (Hall id d Hid v).
Defined.

(** X21.  A driver that has been deleted stays deleted until it is created
    again: whatever status updates and deletions follow, of this driver or
    of others, and whatever other drivers are created, it reads as [null]
    and a status update for it is rejected. *)
Theorem deleted_driver_stays_deleted :
  forall (ops : list driver_operation) (id : string) (db : collection),
    (forall driver, ~ In (CreateDriver id driver) ops) ->
    let db' := foldl perform_driver (deleteDriver id db) ops in
    getDriver id db' = None
    /\ forall isOnline now,
         updateDriverStatus id isOnline now db' = Throws "not-found".
Proof.
  intros ops id db Hops db'.
  assert (Hnone : db' !! id = None).
  { subst db'.
    assert (Hstart : deleteDriver id db !! id = None) by apply lookup_delete_eq.
    revert Hstart. generalize (deleteDriver id db).
    induction ops as [|op ops IH]; intros db0 Hdb0; cbn [foldl]; [exact Hdb0|].
    apply IH.
    - intros driver Hin. apply (Hops driver). right. exact Hin.
    - destruct op as [newId driver|id' isOnline now|id']; cbn.
      + rewrite lookup_insert_ne; [exact Hdb0|].
        intros ->. apply (Hops driver). left. reflexivity.
      + unfold updateDriverStatus, updateDoc.
        destruct (db0 !! id') as [d|] eqn:Hd; [|exact Hdb0].
        rewrite lookup_insert_ne; [exact Hdb0|]. congruence.
      + unfold deleteDriver, deleteDoc. rewrite lookup_delete. case_decide;
          [reflexivity|exact Hdb0]. }
  split.
  - unfold getDriver, getDoc. rewrite Hnone. reflexivity.
  - intros isOnline now. unfold updateDriverStatus, updateDoc.
    rewrite Hnone. reflexivity.
Qed.

(** The theorem at a driver deleted before its status is updated. *)
Lemma deleted_driver_stays_deleted_witness :
  let driver : document := <["name" := VString "Asha"]> ∅ in
  let db := (createDriver "D1" driver ∅).2 in
  let ops := [UpdateDriverStatus "D1" true 5000; CreateDriver "D2" driver] in
  (forall d, ~ In (CreateDriver "D1" d) ops)
  /\ getDriver "D1" (foldl perform_driver (deleteDriver "D1" db) ops) = None.
Proof.
  intros driver db ops.
  assert (Hops : forall d, ~ In (CreateDriver "D1" d) ops).
  { intros d [H|[H|[]]]; discriminate. }
  split; [exact Hops|].
  exact (proj1 (deleted_driver_stays_deleted ops "D1" db Hops)).
Defined.

End DriverRecords.

(* ===================================================================== *)
(** ** The dashboard over whole sessions *)
(* ===================================================================== *)

Section DashboardSessions.
Import JS DriverDashboard.

Lemma resume_coherent (t : task) (r : settlement) (w : page) :
  coherent w -> coherent (resume t r w).1.
Proof.
  intros (Htr & Hreg & Hws & Hpub & Hnext). unfold coherent.
  destruct t, r as [p now|m]; cbn;
    try (split; [exact Htr|split; [exact Hreg|split; [exact Hws|
         split; [exact Hpub|exact Hnext]]]]).
  split; [|split; [|split; [|split]]].
  - split; [eauto|reflexivity].
  - intros id [= <-]. apply elem_of_union_l, elem_of_singleton. reflexivity.
  - intros id [->%elem_of_singleton|Hin]%elem_of_union; [|apply Hws in Hin]; lia.
  - intros id l Hin. apply Hpub in Hin. lia.
  - lia.
Qed.

Lemma step_coherent (w : page) (e : event) : coherent w -> coherent (step w e).
Proof.
  intros Hw. destruct e as [| |i r|id p now]; cbn [step].
  - destruct (isTracking (ui w)); [exact Hw|].
    destruct (locationPermission (ui w)) eqn:Hperm; try exact Hw;
      destruct Hw as (Htr & Hreg & Hws & Hpub & Hnext);
      unfold startTracking, coherent; cbn; rewrite ?Hperm; cbn;
      (split; [exact Htr|split; [exact Hreg|split; [exact Hws|
       split; [exact Hpub|exact Hnext]]]]).
  - destruct (isTracking (ui w)) eqn:Htrack; [|exact Hw].
    destruct Hw as (Htr & Hreg & Hws & Hpub & Hnext).
    unfold stopTracking, coherent.
    destruct (watchId (ui w)) as [id|]; cbn.
    + split; [split; [discriminate|intros [? [=]]]|]. split; [intros ? [=]|].
      split; [|split; [exact Hpub|exact Hnext]].
      intros id' [Hin _]%elem_of_difference. exact (Hws id' Hin).
    + split; [split; [discriminate|intros [? [=]]]|]. split; [intros ? [=]|].
      split; [exact Hws|split; [exact Hpub|exact Hnext]].
  - destruct (pending w !! i) as [t|]; [|exact Hw].
    pose proof (resume_coherent t r w Hw) as Hres.
    destruct (resume t r w) as [w' [t'|]]; exact Hres.
  - unfold onPosition. destruct (decide (id ∈ watches w)) as [Hin|]; [|exact Hw].
    destruct Hw as (Htr & Hreg & Hws & Hpub & Hnext). unfold coherent. cbn.
    split; [exact Htr|]. split; [exact Hreg|]. split; [exact Hws|].
    split; [|exact Hnext].
    intros id' l [[= <- <-]|Hpast]; [exact (Hws id Hin)|exact (Hpub id' l Hpast)].
Qed.

(** X18.  Whatever the driver and the browser do after the page is mounted,
    clicks, promises settling and positions arriving in any order, the
    component and the browser agree: tracking is shown exactly when a watch
    is remembered, the remembered watch is registered, and nothing is
    published under a watch that was never handed out. *)
Theorem run_coherent :
  forall (es : list event) (perm : permission), coherent (run es (mount perm)).
Proof.
  intros es perm. unfold run.
  assert (Hmount : coherent (mount perm)).
  { unfold coherent. cbn. split; [split; [discriminate|intros [? [=]]]|].
    split; [intros ? [=]|]. split; [|split; [intros ? ? []|lia]].
    intros id Hin. apply not_elem_of_empty in Hin. destruct Hin. }
  revert Hmount. generalize (mount perm).
  induction es as [|e es IH]; intros w Hw; cbn [foldl]; [exact Hw|].
  apply IH, step_coherent, Hw.
Qed.

Lemma step_orderly (w : page) (e : event) :
  one_at_a_time [e] w = true -> orderly w -> orderly (step w e).
Proof.
  intros Hone Hw. pose proof Hw as (Hws & Hidle & Hpend).
  destruct e as [| |i r|id p now]; cbn [step].
  - cbn in Hone. rewrite andb_true_r in Hone. unfold start_offered in Hone.
    destruct (isTracking (ui w)) eqn:Htrack; [exact Hw|].
    destruct (locationPermission (ui w)) eqn:Hperm; try exact Hw;
      cbn in Hone; destruct (pending w) as [|t ts] eqn:Hp; try discriminate;
      unfold startTracking, orderly, remembered; cbn; rewrite Hp, ?Hperm; cbn;
      (split; [exact Hws|]); (split; [exact (proj1 (proj2 Hw))|]);
      right; eexists; (split; [reflexivity|]); intros _; exact Htrack.
  - destruct (isTracking (ui w)) eqn:Htrack; [|exact Hw].
    unfold stopTracking, orderly, remembered in *.
    destruct (watchId (ui w)) as [id|]; cbn.
    + split.
      { rewrite Hws. apply set_eq. intros x.
        rewrite elem_of_difference, elem_of_singleton. split.
        - intros [? ?]. contradiction.
        - intros []%not_elem_of_empty. }
      split; [reflexivity|].
      destruct Hpend as [Hp|(t & Hp & Ht)]; [left; exact Hp|right].
      exists t. split; [exact Hp|]. reflexivity.
    + split; [exact Hws|]. split; [reflexivity|].
      destruct Hpend as [Hp|(t & Hp & Ht)]; [left; exact Hp|right].
      exists t. split; [exact Hp|]. reflexivity.
  - destruct Hpend as [Hp|(t & Hp & Ht)].
    + rewrite Hp. exact Hw.
    + rewrite Hp. destruct i as [|i]; [|exact Hw].
      cbn [lookup list_lookup].
      unfold orderly, remembered in *.
      destruct t, r as [p now|m]; cbn; rewrite ?Hp; cbn.
      * split; [exact Hws|]. split; [exact Hidle|]. right. eexists.
        split; [reflexivity|]. intros _. apply Ht. discriminate.
      * split; [exact Hws|]. split; [exact Hidle|]. right. eexists.
        split; [reflexivity|]. intros _. apply Ht. discriminate.
      * assert (Hnone : watchId (ui w) = None) by (apply Hidle, Ht; discriminate).
        rewrite Hws, Hnone. split; [apply (right_id_L ∅ (∪))|].
        split; [discriminate|]. right. eexists. split; [reflexivity|].
        intros Hne. destruct Hne. reflexivity.
      * split; [exact Hws|]. split; [exact Hidle|]. left. reflexivity.
      * split; [exact Hws|]. split; [exact Hidle|]. left. reflexivity.
      * split; [exact Hws|]. split; [exact Hidle|]. left. reflexivity.
  - unfold onPosition. destruct (decide (id ∈ watches w)); [|exact Hw].
    unfold orderly, remembered in *. cbn.
    split; [exact Hws|]. split; [exact Hidle|exact Hpend].
Qed.

(** X19.  Where the start control is used only while no earlier start is
    still suspended, the browser never holds a watch the component has
    forgotten: the registered watches are the remembered one, at most one,
    and none at all while the component is not tracking, so that after a
    stop no position that arrives is published. *)
Theorem one_at_a_time_single_watch :
  forall (es : list event) (perm : permission),
    one_at_a_time es (mount perm) = true ->
    let w := run es (mount perm) in
    watches w = remembered w
    /\ size (watches w) <= 1
    /\ (isTracking (ui w) = false ->
        watches w = ∅
        /\ forall id p now,
             published (step w (Position id p now)) = published w).
Proof.
  intros es perm Hone w.
  assert (Hw : orderly w).
  { subst w. unfold run.
    assert (Hmount : orderly (mount perm)).
    { unfold orderly, remembered. cbn. split; [reflexivity|].
      split; [reflexivity|left; reflexivity]. }
    revert Hone Hmount. generalize (mount perm).
    induction es as [|e es IH]; intros w0 Hone Hw0; cbn [foldl]; [exact Hw0|].
    cbn [one_at_a_time] in Hone. apply andb_true_iff in Hone as [He Hes].
    apply IH; [exact Hes|]. apply step_orderly; [|exact Hw0].
    cbn [one_at_a_time]. rewrite He. reflexivity. }
  destruct Hw as (Hws & Hidle & _). split; [exact Hws|]. split.
  - rewrite Hws. unfold remembered. destruct (watchId (ui w)).
    + rewrite size_singleton. lia.
    + rewrite size_empty. lia.
  - intros Htrack.
    assert (Hnone : watches w = ∅).
    { rewrite Hws. unfold remembered. rewrite (Hidle Htrack). reflexivity. }
    split; [exact Hnone|]. intros id p now. cbn [step]. unfold onPosition.
    destruct (decide (id ∈ watches w)) as [Hin|]; [|reflexivity].
    rewrite Hnone in Hin. apply not_elem_of_empty in Hin. destruct Hin.
Qed.

(** The theorem on a trip that is started, reports a position and is
    stopped, and on one started again after that. *)
Lemma one_at_a_time_single_watch_witness :
  let fix1 := mkPosition 11.0168 76.9558 None None in
  let trip := [ClickStart; Settle 0 (Fulfilled fix1 1000);
               Settle 0 (Fulfilled fix1 1000); Position 1 fix1 2000;
               ClickStop; ClickStart; Settle 0 (Fulfilled fix1 3000)] in
  one_at_a_time trip (mount Granted) = true
  /\ watches (run trip (mount Granted)) = {[2%Z]}.
Proof.
  intros fix1 trip.
  assert (Hone : one_at_a_time trip (mount Granted) = true) by reflexivity.
  split; [exact Hone|].
  destruct (one_at_a_time_single_watch trip Granted Hone) as (Hws & _ & _).
  rewrite Hws. reflexivity.
Defined.

End DashboardSessions.

(* ===================================================================== *)
(** ** The trip clock *)
(* ===================================================================== *)

Section TripClock.
Import DriverDashboard.
Local Open Scope Z_scope.

Lemma string_length_append (s1 s2 : string) :
  String.length (s1 +:+ s2) = (String.length s1 + String.length s2)%nat.
Proof.
  induction s1 as [|a s1 IH]; [reflexivity|].
  change (S (String.length (s1 +:+ s2))
          = S (String.length s1 + String.length s2)%nat).
  rewrite IH. reflexivity.
Qed.

Lemma padStart2_two_digits (z : Z) :
  0 <= z < 100 -> String.length (padStart2 (pretty z)) = 2%nat.
Proof.
  intros Hz.
  assert (Hall : forallb (fun n => Nat.eqb
                     (String.length (padStart2 (pretty (Z.of_nat n)))) 2)
                   (seq 0 100) = true) by (vm_compute; reflexivity).
  rewrite forallb_forall in Hall.
  specialize (Hall (Z.to_nat z)). rewrite Z2Nat.id in Hall by lia.
  apply Nat.eqb_eq, Hall, in_seq. lia.
Qed.

(** X20.  For a trip that has lasted [diff] milliseconds, [diff] not
    negative, the clock shows the whole seconds that have passed, split into
    hours, minutes below 60 and seconds below 60; before a trip starts and
    for every trip shorter than a hundred hours the text is eight characters
    long. *)
Theorem tripClock_splits_elapsed_seconds :
  forall diff : Z,
    0 <= diff ->
    let '(hours, minutes, seconds) := tripClock diff in
    0 <= hours
    /\ 0 <= minutes < 60
    /\ 0 <= seconds < 60
    /\ hours * 3600 + minutes * 60 + seconds = diff / 1000
    /\ (forall now, String.length (getTripDuration None now) = 8%nat)
    /\ (diff < 100 * 3600 * 1000 ->
        forall start,
          String.length (getTripDuration (Some start) (start + diff)) = 8%nat).
Proof.
  intros diff Hdiff. unfold tripClock.
  rewrite !Z.rem_mod_nonneg by lia.
  assert (Hh : 0 <= diff / (1000 * 60 * 60)) by (apply Z.div_pos; lia).
  assert (Hm : 0 <= diff mod (1000 * 60 * 60) / (1000 * 60) < 60).
  { split; [apply Z.div_pos; [apply Z.mod_pos_bound|]; lia|].
    apply Z.div_lt_upper_bound; [lia|].
    pose proof (Z.mod_pos_bound diff (1000 * 60 * 60)). lia. }
  assert (Hs : 0 <= diff mod (1000 * 60) / 1000 < 60).
  { split; [apply Z.div_pos; [apply Z.mod_pos_bound|]; lia|].
    apply Z.div_lt_upper_bound; [lia|].
    pose proof (Z.mod_pos_bound diff (1000 * 60)). lia. }
  split; [exact Hh|]. split; [exact Hm|]. split; [exact Hs|]. split.
  - clear Hh Hm Hs. Z.to_euclidean_division_equations. lia.
  - split; [intros now; reflexivity|]. intros Hshort start.
    unfold getTripDuration, tripClock.
    replace (start + diff - start) with diff by lia.
    rewrite !Z.rem_mod_nonneg by lia.
    assert (Hh' : 0 <= diff / (1000 * 60 * 60) < 100).
    { split; [exact Hh|]. apply Z.div_lt_upper_bound; lia. }
    rewrite !string_length_append.
    rewrite (padStart2_two_digits _ Hh').
    rewrite (padStart2_two_digits (diff mod (1000 * 60) / 1000)) by lia.
    rewrite (padStart2_two_digits (diff mod (1000 * 60 * 60) / (1000 * 60)))
      by lia.
    reflexivity.
Qed.

(** The theorem at a trip of one hour, one minute and one second and a
    half. *)
Lemma tripClock_splits_elapsed_seconds_witness :
  tripClock 3661500 = (1, 1, 1)
  /\ getTripDuration (Some 1000) (1000 + 3661500) = "01:01:01"%string
  /\ String.length (getTripDuration (Some 1000) (1000 + 3661500)) = 8%nat.
Proof.
  pose proof (tripClock_splits_elapsed_seconds 3661500 ltac:(lia)) as H.
  change (tripClock 3661500) with (1, 1, 1) in H.
  destruct H as (_ & _ & _ & _ & _ & Hlen).
  split; [reflexivity|]. split; [reflexivity|].
  apply Hlen. lia.
Defined.

End TripClock.
